(** * websocks client: the query cache and the recoverable connection

    A shallow embedding of [createWSHooks] (the client half of websocks):
    the two caches, the closures that [load] creates, the sockets opened by
    [createRecoverableWebSocket], the pending timers, and the event handlers
    the socket and the timers run.

    JavaScript objects that are shared and mutated live in a store and are
    referred to by their index in it:
    - every invocation of [load] that gets past its guard creates one
      closure environment ([Conn]: [deferred], [subscriptions],
      [cleanupTimeoutId], [ws]);
    - every [new WebSocket(url)] creates one [WebSocket];
    - every [defer()] creates one promise;
    - every [setTimeout] creates one pending [Timer].
    A closure is the index of the environment it captured together with the
    immutable values it captured.

    The host is single threaded: each handler runs to completion, so the
    program is a transition system whose steps are calls of the public
    operations and deliveries of socket and timer events ([step]).

    Outside the model: exceptions raised by a user supplied [opts] callback
    or by the [WebSocket] constructor on a malformed URL (the URL is taken
    to be well formed), and the React hooks that wrap [read] and
    [subscribe]. A listener is known by its identity only; its invocations
    are logged in [notified]. *)

From Stdlib Require Import Floats ZArith Ascii.
From stdpp Require Import gmap strings list.

Local Set Warnings "-register-all,-notation-for-abbreviation".

(** ** Values *)

(** A decoded server frame: what [parseJSON(e.data)] hands to [onMessage].
    An object is the list of its own properties. *)
Inductive JSValue :=
  | JNull
  | JBool (b : bool)
  | JNum (x : float)
  | JStr (s : string)
  | JArr (xs : list JSValue)
  | JObj (fs : list (string * JSValue)).

(** [!value] is false: ToBoolean of ECMAScript. Zero (of either sign) and NaN
    are falsy, as are [null], [false] and the empty string; every object and
    array is truthy. *)
Definition truthy (v : JSValue) : bool :=
  match v with
  | JNull => false
  | JBool b => b
  | JNum x => negb (PrimFloat.eqb x 0%float) && PrimFloat.eqb x x
  | JStr s => negb (String.eqb s "")
  | JArr _ => true
  | JObj _ => true
  end.

(** [typeof value === "object"]: objects, arrays and [null]. *)
Definition typeof_object (v : JSValue) : bool :=
  match v with
  | JNull | JArr _ | JObj _ => true
  | _ => false
  end.

(** [value[key]] on the own properties of an object. *)
Fixpoint get_property (key : string) (fs : list (string * JSValue)) : option JSValue :=
  match fs with
  | [] => None
  | (k, v) :: fs' => if String.eqb k key then Some v else get_property key fs'
  end.

(** ["error" in value]: only a plain object can carry the property; neither
    [Array.prototype] nor [Object.prototype] has one of that name. *)
Definition error_in (v : JSValue) : option JSValue :=
  match v with
  | JObj fs => get_property "error" fs
  | _ => None
  end.

(** Joins the pieces of [Array.prototype.join]. *)
Fixpoint join (sep : string) (xs : list string) : string :=
  match xs with
  | [] => ""
  | [x] => x
  | x :: xs' => x +:+ sep +:+ join sep xs'
  end.

(** What a thrown value is. *)
Inductive Thrown :=
  | Error (message : string)
  | URIError
  | TypeError
  | ThrownPromise (d : nat).

(** The completion of a call: it returns or it throws. *)
Inductive Completion (A : Type) :=
  | Return (a : A)
  | Throw (t : Thrown).
Arguments Return {A} a.
Arguments Throw {A} t.

(** ** The store *)

(** The argument of [createWSHooks]: a value, or a callback evaluated on
    every load that opens a connection ([n] counts the earlier calls). *)
Inductive Opts :=
  | OptsValue (url : string)
  | OptsCallback (f : nat -> string).

(** An entry of [queryCache]. [deferred] is the promise of the load cycle;
    [q_subscribe] is the [subscribe] closure, given by the [Conn] it closes
    over. *)
Record QueryEntry := {
  deferred : nat;
  lazilyRefetch : bool;
  q_subscribe : nat;
}.

(** [{ ...query, lazilyRefetch: b }] *)
Definition spread_lazilyRefetch (query : QueryEntry) (b : bool) : QueryEntry :=
  {| deferred := deferred query; lazilyRefetch := b; q_subscribe := q_subscribe query |}.

Inductive PromiseState :=
  | Pending
  | Resolved
  | Rejected (reason : string).

Inductive ReadyState := CONNECTING | OPEN | CLOSING | CLOSED.

Definition is_CLOSED (r : ReadyState) : bool :=
  match r with CLOSED => true | _ => false end.

(** A socket made by [recreate], with what its four listeners captured:
    [ws_path] and [ws_url] are the arguments of
    [createRecoverableWebSocket], [ws_conn] the load cycle whose [onClose],
    [onError] and [onMessage] they call. [sent] lists the frames written. *)
Record WebSocket := {
  ws_url : string;
  ws_path : string;
  ws_conn : nat;
  readyState : ReadyState;
  sent : list string;
}.

Definition set_readyState (r : ReadyState) (w : WebSocket) : WebSocket :=
  {| ws_url := ws_url w; ws_path := ws_path w; ws_conn := ws_conn w;
     readyState := r; sent := sent w |}.

Definition push_sent (frame : string) (w : WebSocket) : WebSocket :=
  {| ws_url := ws_url w; ws_path := ws_path w; ws_conn := ws_conn w;
     readyState := readyState w; sent := sent w ++ [frame] |}.

(** The variables one run of [load] declares and its closures share.
    [conn_ws] is the [ws] of [createRecoverableWebSocket]: it is assigned
    once, from the first [recreate()]. *)
Record Conn := {
  conn_path : string;
  conn_deferred : nat;
  subscriptions : list nat;
  cleanupTimeoutId : option nat;
  conn_ws : nat;
}.

Definition set_subscriptions (f : list nat -> list nat) (c : Conn) : Conn :=
  {| conn_path := conn_path c; conn_deferred := conn_deferred c;
     subscriptions := f (subscriptions c);
     cleanupTimeoutId := cleanupTimeoutId c; conn_ws := conn_ws c |}.

Definition set_cleanupTimeoutId (t : option nat) (c : Conn) : Conn :=
  {| conn_path := conn_path c; conn_deferred := conn_deferred c;
     subscriptions := subscriptions c;
     cleanupTimeoutId := t; conn_ws := conn_ws c |}.

(** The callback given to [setTimeout], with what it captured. *)
Inductive TimerAction :=
  | Reconnect (ws : nat) (conn : nat) (path url : string)
  | Cleanup (conn : nat).

Record Timer := {
  timer_id : nat;
  delay : Z;
  action : TimerAction;
}.

Record State := {
  valueCache : gmap string JSValue;
  queryCache : gmap string QueryEntry;
  conns : list Conn;
  sockets : list WebSocket;
  promises : list PromiseState;
  timers : list Timer;
  timer_seq : nat;
  opts_calls : nat;
  notified : list nat;
  unsubscribers : list (nat * nat);
}.

Definition set_valueCache (f : gmap string JSValue -> gmap string JSValue) (st : State) : State :=
  {| valueCache := f (valueCache st); queryCache := queryCache st; conns := conns st;
     sockets := sockets st; promises := promises st; timers := timers st;
     timer_seq := timer_seq st; opts_calls := opts_calls st; notified := notified st;
     unsubscribers := unsubscribers st |}.

Definition set_queryCache (f : gmap string QueryEntry -> gmap string QueryEntry) (st : State) : State :=
  {| valueCache := valueCache st; queryCache := f (queryCache st); conns := conns st;
     sockets := sockets st; promises := promises st; timers := timers st;
     timer_seq := timer_seq st; opts_calls := opts_calls st; notified := notified st;
     unsubscribers := unsubscribers st |}.

Definition set_conns (f : list Conn -> list Conn) (st : State) : State :=
  {| valueCache := valueCache st; queryCache := queryCache st; conns := f (conns st);
     sockets := sockets st; promises := promises st; timers := timers st;
     timer_seq := timer_seq st; opts_calls := opts_calls st; notified := notified st;
     unsubscribers := unsubscribers st |}.

Definition set_sockets (f : list WebSocket -> list WebSocket) (st : State) : State :=
  {| valueCache := valueCache st; queryCache := queryCache st; conns := conns st;
     sockets := f (sockets st); promises := promises st; timers := timers st;
     timer_seq := timer_seq st; opts_calls := opts_calls st; notified := notified st;
     unsubscribers := unsubscribers st |}.

Definition set_promises (f : list PromiseState -> list PromiseState) (st : State) : State :=
  {| valueCache := valueCache st; queryCache := queryCache st; conns := conns st;
     sockets := sockets st; promises := f (promises st); timers := timers st;
     timer_seq := timer_seq st; opts_calls := opts_calls st; notified := notified st;
     unsubscribers := unsubscribers st |}.

Definition set_timers (f : list Timer -> list Timer) (st : State) : State :=
  {| valueCache := valueCache st; queryCache := queryCache st; conns := conns st;
     sockets := sockets st; promises := promises st; timers := f (timers st);
     timer_seq := timer_seq st; opts_calls := opts_calls st; notified := notified st;
     unsubscribers := unsubscribers st |}.

Definition set_timer_seq (n : nat) (st : State) : State :=
  {| valueCache := valueCache st; queryCache := queryCache st; conns := conns st;
     sockets := sockets st; promises := promises st; timers := timers st;
     timer_seq := n; opts_calls := opts_calls st; notified := notified st;
     unsubscribers := unsubscribers st |}.

Definition set_opts_calls (n : nat) (st : State) : State :=
  {| valueCache := valueCache st; queryCache := queryCache st; conns := conns st;
     sockets := sockets st; promises := promises st; timers := timers st;
     timer_seq := timer_seq st; opts_calls := n; notified := notified st;
     unsubscribers := unsubscribers st |}.

Definition set_notified (f : list nat -> list nat) (st : State) : State :=
  {| valueCache := valueCache st; queryCache := queryCache st; conns := conns st;
     sockets := sockets st; promises := promises st; timers := timers st;
     timer_seq := timer_seq st; opts_calls := opts_calls st; notified := f (notified st);
     unsubscribers := unsubscribers st |}.

Definition set_unsubscribers (f : list (nat * nat) -> list (nat * nat)) (st : State) : State :=
  {| valueCache := valueCache st; queryCache := queryCache st; conns := conns st;
     sockets := sockets st; promises := promises st; timers := timers st;
     timer_seq := timer_seq st; opts_calls := opts_calls st; notified := notified st;
     unsubscribers := f (unsubscribers st) |}.

(** The state [createWSHooks] starts from: two empty maps, nothing opened. *)
Definition init : State :=
  {| valueCache := ∅; queryCache := ∅; conns := []; sockets := []; promises := [];
     timers := []; timer_seq := 0; opts_calls := 0; notified := [];
     unsubscribers := [] |}.

(** ** Primitives of the host *)

(** [defer()] and the two functions of the handle it returns.

    Modelled from the spec: [defer] lives in [./lib], which is not among the
    sources. A pending-result handle resolves or rejects exactly once; a new
    load cycle creates a new handle. *)
Definition defer (st : State) : nat * State :=
  (length (promises st), set_promises (fun ps => ps ++ [Pending]) st).

Definition settle (new : PromiseState) (old : PromiseState) : PromiseState :=
  match old with
  | Pending => new
  | _ => old
  end.

Definition deferred_resolve (d : nat) (st : State) : State :=
  set_promises (alter (settle Resolved) d) st.

Definition deferred_reject (d : nat) (reason : string) (st : State) : State :=
  set_promises (alter (settle (Rejected reason)) d) st.

(** [setTimeout(callback, delay)]: a fresh id, one more pending timer. *)
Definition setTimeout (a : TimerAction) (ms : Z) (st : State) : nat * State :=
  let id := timer_seq st in
  (id, set_timer_seq (S id)
         (set_timers (fun ts => ts ++ [{| timer_id := id; delay := ms; action := a |}]) st)).

Definition has_id (id : nat) (t : Timer) : bool := Nat.eqb (timer_id t) id.

(** [window.clearTimeout(id)]; [undefined] cancels nothing. *)
Definition clearTimeout (id : option nat) (st : State) : State :=
  match id with
  | None => st
  | Some i => set_timers (List.filter (fun t => negb (has_id i t))) st
  end.

(** [ws.close()]: starts the closing handshake of a socket that is
    connecting or open, and does nothing on one that is closing or closed. *)
Definition WebSocket_close (w : WebSocket) : WebSocket :=
  match readyState w with
  | CONNECTING | OPEN => set_readyState CLOSING w
  | CLOSING | CLOSED => w
  end.

(** [Array.prototype.indexOf] *)
Fixpoint indexOf (x : nat) (l : list nat) : option nat :=
  match l with
  | [] => None
  | y :: l' => if Nat.eqb y x then Some 0 else S <$> indexOf x l'
  end.

(** [subscriptions.splice(index, 1)] with [index] the result of [indexOf]:
    a found index removes that element; [-1] counts from the end, so it
    removes the last element. *)
Definition splice1 (index : option nat) (l : list nat) : list nat :=
  match index with
  | Some i => take i l ++ drop (S i) l
  | None => take (length l - 1) l
  end.

(** An instance of the host functions for the examples: percent decoding of
    one-byte escapes (the example paths are ASCII), and a number printer that
    is exact on zero only (the example error details are strings). *)
Definition hex_value (a : ascii) : option N :=
  let n := N_of_ascii a in
  if ((48 <=? n) && (n <=? 57))%N then Some (n - 48)%N
  else if ((65 <=? n) && (n <=? 70))%N then Some (n - 55)%N
  else if ((97 <=? n) && (n <=? 102))%N then Some (n - 87)%N
  else None.

Fixpoint sample_decodeURIComponent (s : string) : option string :=
  match s with
  | EmptyString => Some EmptyString
  | String "%"%char (String a (String b s')) =>
      match hex_value a, hex_value b with
      | Some x, Some y =>
          String (ascii_of_N (16 * x + y)) <$> sample_decodeURIComponent s'
      | _, _ => None
      end
  | String "%"%char _ => None
  | String c s' => String c <$> sample_decodeURIComponent s'
  end.

Definition sample_NumberToString (x : float) : string :=
  if PrimFloat.eqb x 0%float then "0" else "NaN".

Definition sample_opts : Opts := OptsValue "ws://localhost:3000".

(** A callback that resolves a different URL at its second evaluation. *)
Definition sample_opts_callback : Opts :=
  OptsCallback (fun n => if Nat.eqb n 0 then "ws://localhost:3000/?token=a"
                         else "ws://localhost:3000/?token=b").

(** ** createWSHooks *)

Section createWSHooks.

(** The argument of the factory, and two functions of the language the
    error message of [read] is built with: the printing of a number in a
    template literal, and [decodeURIComponent], which throws a [URIError]
    ([None]) on a malformed escape. *)
Variable opts : Opts.
Variable NumberToString : float -> string.
Variable decodeURIComponent : string -> option string.

(** [`${v}`] for a decoded frame: ToString of ECMAScript, which throws a
    [TypeError] ([None]) on an object it cannot convert to a primitive. An
    object is printed by the [toString] it finds: a decoded object that has an
    own property of that name has a value there that cannot be called, and
    [valueOf] gives no primitive either, so the conversion throws; any other
    decoded object inherits [Object.prototype.toString]. An array is printed
    by [join], which prints [null] as the empty string and every other
    element by ToString. *)
Fixpoint ToString (v : JSValue) : option string :=
  match v with
  | JNull => Some "null"
  | JBool true => Some "true"
  | JBool false => Some "false"
  | JNum x => Some (NumberToString x)
  | JStr s => Some s
  | JArr xs =>
      join "," <$>
        (fix elements (l : list JSValue) : option (list string) :=
           match l with
           | [] => Some []
           | x :: l' =>
               match (match x with JNull => Some "" | _ => ToString x end) with
               | Some s =>
                   match elements l' with
                   | Some ss => Some (s :: ss)
                   | None => None
                   end
               | None => None
               end
           end) xs
  | JObj fs =>
      match get_property "toString" fs with
      | Some _ => None
      | None => Some "[object Object]"
      end
  end.

Definition dquote : string := String "034"%char EmptyString.

(** [`invariant: call load() first for ${path}`] *)
Definition invariant_message (path : string) : string :=
  "invariant: call load() first for " +:+ path.

(** [`Error reading "${decoded}" - [${detail}]`], from the two substitutions
    as strings. *)
Definition read_error_message (decoded detail : string) : string :=
  "Error reading " +:+ dquote +:+ decoded +:+ dquote +:+ " - [" +:+ detail +:+ "]".

(** *** createRecoverableWebSocket *)

(** [recreate()]: one more socket, connecting, with its listeners attached. *)
Definition recreate (conn : nat) (path url : string) (st : State) : nat * State :=
  (length (sockets st),
   set_sockets (fun l => l ++ [{| ws_url := url; ws_path := path; ws_conn := conn;
                                  readyState := CONNECTING; sent := [] |}]) st).

(** [let ws = recreate(); return { close: () => ws.close() }]: the handle is
    the socket [ws] names. *)
Definition createRecoverableWebSocket (conn : nat) (path url : string) (st : State)
  : nat * State :=
  recreate conn path url st.

(** *** The callbacks [load] passes to the connection *)

Definition onClose (path : string) (st : State) : State :=
  match queryCache st !! path with
  | Some query =>
      set_queryCache (<[path := spread_lazilyRefetch query true]>)
        (set_valueCache (delete path) st)
  | None => st
  end.

Definition onError (conn : nat) (st : State) : State :=
  match conns st !! conn with
  | Some c => deferred_reject (conn_deferred c) "Error connecting to websocket." st
  | None => st
  end.

Definition onMessage (conn : nat) (path : string) (data : JSValue) (st : State) : State :=
  let st1 := set_valueCache (<[path := data]>) st in
  match conns st1 !! conn with
  | Some c =>
      deferred_resolve (conn_deferred c)
        (set_notified (fun log => log ++ subscriptions c) st1)
  | None => st1
  end.

(** *** The listeners [recreate] attaches to a socket *)

Definition on_open (ws : nat) (st : State) : State :=
  match sockets st !! ws with
  | Some w => set_sockets (alter (push_sent (ws_path w)) ws) st
  | None => st
  end.

Definition on_message (ws : nat) (parsed : JSValue) (st : State) : State :=
  match sockets st !! ws with
  | Some w => onMessage (ws_conn w) (ws_path w) parsed st
  | None => st
  end.

Definition on_error (ws : nat) (st : State) : State :=
  match sockets st !! ws with
  | Some w => onError (ws_conn w) st
  | None => st
  end.

Definition on_close (ws : nat) (code : Z) (st : State) : State :=
  match sockets st !! ws with
  | Some w =>
      if (code =? 1006)%Z
      then (setTimeout (Reconnect ws (ws_conn w) (ws_path w) (ws_url w)) 1000 st).2
      else onClose (ws_path w) st
  | None => st
  end.

(** The callback of the timer [on_close] sets. *)
Definition reconnect_callback (ws conn : nat) (path url : string) (st : State) : State :=
  match sockets st !! ws with
  | Some w => if is_CLOSED (readyState w) then (recreate conn path url st).2 else st
  | None => st
  end.

(** *** wsQuery *)

(** [typeof opts === "function" ? opts() : opts] *)
Definition resolvedOpts (st : State) : string * State :=
  match opts with
  | OptsValue url => (url, st)
  | OptsCallback f => (f (opts_calls st), set_opts_calls (S (opts_calls st)) st)
  end.

(** The part of [load] after its guard: a new handle, a new subscriber list,
    a new connection, a new entry. *)
Definition load_fresh (path : string) (st : State) : State :=
  let '(url, st1) := resolvedOpts st in
  let '(d, st2) := defer st1 in
  let conn := length (conns st2) in
  let '(ws, st3) := createRecoverableWebSocket conn path url st2 in
  let st4 :=
    set_conns (fun l => l ++ [{| conn_path := path; conn_deferred := d;
                                 subscriptions := []; cleanupTimeoutId := None;
                                 conn_ws := ws |}]) st3 in
  set_queryCache
    (<[path := {| deferred := d; lazilyRefetch := false; q_subscribe := conn |}]>) st4.

Definition load (path : string) (st : State) : State :=
  match queryCache st !! path with
  | Some query =>
      if negb (lazilyRefetch query) then st
      else load_fresh path
             (set_queryCache (<[path := spread_lazilyRefetch query false]>) st)
  | None => load_fresh path st
  end.

(** The [subscribe] that [load] declares, for the load cycle [conn]. It
    returns the unsubscribe closure, which captured [conn] and the
    listener. *)
Definition load_subscribe (conn onStoreChanged : nat) (st : State) : (nat * nat) * State :=
  ((conn, onStoreChanged),
   set_unsubscribers (fun l => l ++ [(conn, onStoreChanged)])
     (set_conns (alter (set_subscriptions (fun l => l ++ [onStoreChanged])) conn) st)).

(** The closure [load_subscribe] returns. *)
Definition unsubscribe (conn onStoreChanged : nat) (st : State) : State :=
  match conns st !! conn with
  | Some c =>
      let st1 := clearTimeout (cleanupTimeoutId c) st in
      let index := indexOf onStoreChanged (subscriptions c) in
      let st2 := set_conns (alter (set_subscriptions (splice1 index)) conn) st1 in
      let '(id, st3) := setTimeout (Cleanup conn) 9999 st2 in
      set_conns (alter (set_cleanupTimeoutId (Some id)) conn) st3
  | None => st
  end.

(** The callback of the timer [unsubscribe] sets. *)
Definition cleanup_callback (conn : nat) (st : State) : State :=
  match conns st !! conn with
  | Some c =>
      if Nat.eqb (length (subscriptions c)) 0
      then set_sockets (alter WebSocket_close (conn_ws c)) st
      else st
  | None => st
  end.

Definition read (path : string) (suspend : bool) (st : State)
  : Completion JSValue * State :=
  match queryCache st !! path with
  | None => (Throw (Error (invariant_message path)), st)
  | Some query =>
      let st1 := if lazilyRefetch query then load path st else st in
      match valueCache st1 !! path with
      | Some value =>
          if truthy value then
            match (if typeof_object value then error_in value else None) with
            | Some detail =>
                match decodeURIComponent path with
                | Some decoded =>
                    match ToString detail with
                    | Some text =>
                        (Throw (Error (read_error_message decoded text)), st1)
                    | None => (Throw TypeError, st1)
                    end
                | None => (Throw URIError, st1)
                end
            | None => (Return value, st1)
            end
          else if suspend then (Throw (ThrownPromise (deferred query)), st1)
          else (Return JNull, st1)
      | None =>
          if suspend then (Throw (ThrownPromise (deferred query)), st1)
          else (Return JNull, st1)
      end
  end.

Definition subscribe (path : string) (onStoreChanged : nat) (st : State)
  : Completion (nat * nat) * State :=
  match queryCache st !! path with
  | None => (Throw (Error (invariant_message path)), st)
  | Some query =>
      let '(u, st1) := load_subscribe (q_subscribe query) onStoreChanged st in
      (Return u, st1)
  end.

(** *** The public operations, on the built path *)

Definition preloadSubscription (path : string) (st : State) : State := load path st.

Definition clearQuery (path : string) (st : State) : State :=
  let query := queryCache st !! path in
  let st1 := set_valueCache (delete path) st in
  match query with
  | Some q => set_queryCache (<[path := spread_lazilyRefetch q true]>) st1
  | None => st1
  end.

(** *** Deliveries by the host

    The host delivers [open] to a connecting socket, [message] to an open
    one, and [error] and [close] to one that has not been closed yet; the
    [close] event comes with the socket already in state [CLOSED]. A timer
    that is still pending fires once. *)

Definition deliver_open (ws : nat) (st : State) : State :=
  match sockets st !! ws with
  | Some w =>
      match readyState w with
      | CONNECTING => on_open ws (set_sockets (alter (set_readyState OPEN) ws) st)
      | _ => st
      end
  | None => st
  end.

Definition deliver_message (ws : nat) (parsed : JSValue) (st : State) : State :=
  match sockets st !! ws with
  | Some w =>
      match readyState w with
      | OPEN => on_message ws parsed st
      | _ => st
      end
  | None => st
  end.

Definition deliver_error (ws : nat) (st : State) : State :=
  match sockets st !! ws with
  | Some w => if is_CLOSED (readyState w) then st else on_error ws st
  | None => st
  end.

Definition deliver_close (ws : nat) (code : Z) (st : State) : State :=
  match sockets st !! ws with
  | Some w =>
      if is_CLOSED (readyState w) then st
      else on_close ws code (set_sockets (alter (set_readyState CLOSED) ws) st)
  | None => st
  end.

Definition run_action (a : TimerAction) (st : State) : State :=
  match a with
  | Reconnect ws conn path url => reconnect_callback ws conn path url st
  | Cleanup conn => cleanup_callback conn st
  end.

Definition timer_fires (id : nat) (st : State) : State :=
  match List.find (has_id id) (timers st) with
  | Some t =>
      run_action (action t) (set_timers (List.filter (fun t' => negb (has_id id t'))) st)
  | None => st
  end.

(** An unsubscribe closure can be called once [subscribe] has returned it
    (and any number of times after that). *)
Definition handed_out (conn listener : nat) (st : State) : bool :=
  existsb (fun u => Nat.eqb u.1 conn && Nat.eqb u.2 listener) (unsubscribers st).

Definition call_unsubscribe (conn listener : nat) (st : State) : State :=
  if handed_out conn listener st then unsubscribe conn listener st else st.

(** *** The transition system *)

Inductive Event :=
  | EvLoad (path : string)
  | EvRead (path : string) (suspend : bool)
  | EvSubscribe (path : string) (listener : nat)
  | EvUnsubscribe (conn listener : nat)
  | EvClearQuery (path : string)
  | EvOpen (ws : nat)
  | EvMessage (ws : nat) (parsed : JSValue)
  | EvError (ws : nat)
  | EvClose (ws : nat) (code : Z)
  | EvTimeout (id : nat).

Definition step (e : Event) (st : State) : State :=
  match e with
  | EvLoad path => load path st
  | EvRead path suspend => (read path suspend st).2
  | EvSubscribe path listener => (subscribe path listener st).2
  | EvUnsubscribe conn listener => call_unsubscribe conn listener st
  | EvClearQuery path => clearQuery path st
  | EvOpen ws => deliver_open ws st
  | EvMessage ws parsed => deliver_message ws parsed st
  | EvError ws => deliver_error ws st
  | EvClose ws code => deliver_close ws code st
  | EvTimeout id => timer_fires id st
  end.

Definition run (trace : list Event) (st : State) : State :=
  fold_left (fun s e => step e s) trace st.

Definition is_clearQuery (e : Event) : bool :=
  match e with
  | EvClearQuery _ => true
  | _ => false
  end.

(** *** What the properties speak of *)

Fixpoint count_if {A : Type} (f : A -> bool) (l : list A) : nat :=
  match l with
  | [] => 0
  | x :: l' => (if f x then 1 else 0) + count_if f l'
  end.

(** Sockets of a path that are not closed, and those that are open. *)
Definition socket_live (path : string) (w : WebSocket) : bool :=
  String.eqb (ws_path w) path && negb (is_CLOSED (readyState w)).

Definition socket_open (path : string) (w : WebSocket) : bool :=
  String.eqb (ws_path w) path && match readyState w with OPEN => true | _ => false end.

Definition live_connections (st : State) (path : string) : nat :=
  count_if (socket_live path) (sockets st).

Definition open_connections (st : State) (path : string) : nat :=
  count_if (socket_open path) (sockets st).

(** Reconnections of a path that are scheduled and have not fired. *)
Definition reconnect_for (path : string) (t : Timer) : bool :=
  match action t with
  | Reconnect _ _ p _ => String.eqb p path
  | Cleanup _ => false
  end.

Definition pending_reconnects (st : State) (path : string) : nat :=
  count_if (reconnect_for path) (timers st).

(** Handles of a path that have been created and are not settled. *)
Definition handle_pending (st : State) (path : string) (c : Conn) : bool :=
  String.eqb (conn_path c) path &&
  match promises st !! conn_deferred c with
  | Some Pending => true
  | _ => false
  end.

Definition pending_handles (st : State) (path : string) : nat :=
  count_if (handle_pending st path) (conns st).



(** Stale implies cleared. *)
Definition stale_implies_cleared (st : State) : Prop :=
  forall path query,
    queryCache st !! path = Some query ->
    lazilyRefetch query = true ->
    valueCache st !! path = None.

(** A frame delivered on the socket of a path whose entry is stale. *)
Definition message_for_stale (st : State) (e : Event) : bool :=
  match e with
  | EvMessage ws _ =>
      match sockets st !! ws with
      | Some w =>
          match readyState w, queryCache st !! ws_path w with
          | OPEN, Some query => lazilyRefetch query
          | _, _ => false
          end
      | None => false
      end
  | _ => false
  end.

(** A connection of the path is alive only under an entry that is not
    stale, and at most one is: a socket that is not closed, or a
    reconnection that waits for its timer. *)
Definition single_connection (st : State) : Prop :=
  forall path,
    live_connections st path + pending_reconnects st path <= 1 /\
    (1 <= live_connections st path + pending_reconnects st path ->
     exists query, queryCache st !! path = Some query /\ lazilyRefetch query = false).

(** The handle of every entry has been created. *)
Definition handles_allocated (st : State) : Prop :=
  forall path query,
    queryCache st !! path = Some query -> deferred query < length (promises st).

(** Every path that has a socket, a scheduled reconnection or a cached value
    has an entry. *)
Definition loaded (st : State) (path : string) : Prop :=
  is_Some (queryCache st !! path).

Definition cached_paths_loaded (st : State) : Prop :=
  (forall i w, sockets st !! i = Some w -> loaded st (ws_path w)) /\
  (forall t ws conn path url,
     In t (timers st) -> action t = Reconnect ws conn path url -> loaded st path) /\
  (forall path value, valueCache st !! path = Some value -> loaded st path).

(** [sub] occurs in [s]. *)
Definition includes (sub s : string) : Prop :=
  exists before after, s = before +:+ sub +:+ after.

(** *** The hooks, up to the snapshot React takes

    [useSyncExternalStore(subscribe, query.read)] calls its second argument
    during render, with no argument, so [suspend] has its default [true].
    [useLazySubscription] calls [query.load()] before that;
    [useSubscription] does not. The subscription React makes after the
    commit is the event [EvSubscribe]. *)
Definition useLazySubscription (path : string) (st : State)
  : Completion JSValue * State :=
  read path true (load path st).

Definition useSubscription (path : string) (st : State)
  : Completion JSValue * State :=
  read path true st.

(** *** More of what the properties speak of *)

(** The path whose cache entries a step may write: the argument of a call,
    the path of the socket of an event. Timers and unsubscribe closures write
    neither cache. *)
Definition event_path (st : State) (e : Event) : option string :=
  match e with
  | EvLoad path | EvRead path _ | EvSubscribe path _ | EvClearQuery path => Some path
  | EvOpen ws | EvMessage ws _ | EvError ws | EvClose ws _ =>
      ws_path <$> sockets st !! ws
  | EvUnsubscribe _ _ | EvTimeout _ => None
  end.

(** Steps that write neither cache. *)
Definition cache_neutral (e : Event) : bool :=
  match e with
  | EvSubscribe _ _ | EvUnsubscribe _ _ | EvOpen _ | EvError _ | EvTimeout _ => true
  | EvClose _ code => (code =? 1006)%Z
  | EvLoad _ | EvRead _ _ | EvClearQuery _ | EvMessage _ _ => false
  end.

(** The URL of the load cycle [conn]: the configured value, or what the
    callback returned at its [conn]-th evaluation. *)
Definition url_of_cycle (conn : nat) : string :=
  match opts with
  | OptsValue url => url
  | OptsCallback f => f conn
  end.

(** How often the callback has been evaluated when [n] load cycles exist. *)
Definition evaluations (n : nat) : nat :=
  match opts with
  | OptsValue _ => 0
  | OptsCallback _ => n
  end.

(** Every load cycle evaluated [opts] once, and every socket and scheduled
    reconnection carries the URL of its load cycle. *)
Definition urls_by_cycle (st : State) : Prop :=
  opts_calls st = evaluations (length (conns st)) /\
  (forall i w, sockets st !! i = Some w -> ws_url w = url_of_cycle (ws_conn w)) /\
  (forall t ws conn path url,
     In t (timers st) -> action t = Reconnect ws conn path url ->
     url = url_of_cycle conn).

(** What a socket has sent: nothing while it connects, its path once it is
    open, and never anything else. *)
Definition sent_is_path (w : WebSocket) : Prop :=
  (readyState w = CONNECTING -> sent w = []) /\
  (readyState w = OPEN -> sent w = [ws_path w]) /\
  (sent w = [] \/ sent w = [ws_path w]).

(** A scheduled reconnection waits for a socket that is closed, and captured
    the path and the load cycle of that socket. *)
Definition reconnects_await_closed (st : State) : Prop :=
  forall t ws conn path url,
    In t (timers st) -> action t = Reconnect ws conn path url ->
    exists w, sockets st !! ws = Some w /\ readyState w = CLOSED /\
              ws_path w = path /\ ws_conn w = conn /\ ws_url w = url.

Definition is_reconnect (t : Timer) : bool :=
  match action t with
  | Reconnect _ _ _ _ => true
  | Cleanup _ => false
  end.

(** Timer ids are handed out once: pending timers have distinct ids below
    the next one, and an id kept in [cleanupTimeoutId] is that of no
    scheduled reconnection. *)
Definition timer_ids_fresh (st : State) : Prop :=
  NoDup (timer_id <$> timers st) /\
  (forall t, In t (timers st) -> timer_id t < timer_seq st) /\
  (forall i c id, conns st !! i = Some c -> cleanupTimeoutId c = Some id ->
     id < timer_seq st /\
     forall t, In t (timers st) -> timer_id t = id -> is_reconnect t = false).

(** The first occurrence of [x] removed, as [splice] at [indexOf] does. *)
Fixpoint remove_first (x : nat) (l : list nat) : list nat :=
  match l with
  | [] => []
  | y :: l' => if Nat.eqb y x then l' else y :: remove_first x l'
  end.

(** How one step can change a socket: not at all; from connecting to open,
    with the path sent; by [ws.close()]; by the closure of a socket that was
    not closed. *)
Definition socket_evolves (w w' : WebSocket) : Prop :=
  w' = w \/
  (readyState w = CONNECTING /\ w' = push_sent (ws_path w) (set_readyState OPEN w)) \/
  w' = WebSocket_close w \/
  (readyState w <> CLOSED /\ w' = set_readyState CLOSED w).

(** Where a new socket comes from: a load cycle that starts, with the URL
    [opts] resolves to, or a scheduled reconnection that fires, with what
    its timer captured. Either way it is connecting and has sent nothing. *)
Definition socket_born (st : State) (w' : WebSocket) : Prop :=
  readyState w' = CONNECTING /\ sent w' = [] /\
  ((ws_url w' = (resolvedOpts st).1 /\ ws_conn w' = length (conns st)) \/
   (exists t ws, In t (timers st) /\
                 action t = Reconnect ws (ws_conn w') (ws_path w') (ws_url w'))).

(** How one step from [st] to [st'] can change the pending timers: some are
    cancelled, and at most one is set, under the next id: a teardown timer
    set by an unsubscribe closure, or a reconnection set by the closure of a
    socket with code 1006. *)
Definition timers_evolve (e : Event) (st st' : State) : Prop :=
  exists keep,
    (timers st' = List.filter keep (timers st) /\ timer_seq st' = timer_seq st) \/
    (exists a d,
       timers st' =
         List.filter keep (timers st) ++
         [{| timer_id := timer_seq st; delay := d; action := a |}] /\
       timer_seq st' = S (timer_seq st) /\
       ((exists conn listener, e = EvUnsubscribe conn listener /\ a = Cleanup conn) \/
        (exists ws w, e = EvClose ws 1006 /\ sockets st !! ws = Some w /\
                      sockets st' !! ws = Some (set_readyState CLOSED w) /\
                      a = Reconnect ws (ws_conn w) (ws_path w) (ws_url w)))).

(** ** Properties *)

(** *** What [load] changes *)

Lemma load_fresh_valueCache path st :
  valueCache (load_fresh path st) = valueCache st.
Proof. unfold load_fresh, resolvedOpts. destruct opts; reflexivity. Qed.

Lemma load_fresh_queryCache path st :
  queryCache (load_fresh path st) =
  <[path := {| deferred := length (promises st); lazilyRefetch := false;
               q_subscribe := length (conns st) |}]> (queryCache st).
Proof. unfold load_fresh, resolvedOpts. destruct opts; reflexivity. Qed.

Lemma load_fresh_sockets path st :
  sockets (load_fresh path st) =
  sockets st ++ [{| ws_url := (resolvedOpts st).1; ws_path := path;
                    ws_conn := length (conns st); readyState := CONNECTING;
                    sent := [] |}].
Proof. unfold load_fresh, resolvedOpts. destruct opts; reflexivity. Qed.

Lemma load_fresh_promises path st :
  promises (load_fresh path st) = promises st ++ [Pending].
Proof. unfold load_fresh, resolvedOpts. destruct opts; reflexivity. Qed.

Lemma load_fresh_conns path st :
  conns (load_fresh path st) =
  conns st ++ [{| conn_path := path; conn_deferred := length (promises st);
                  subscriptions := []; cleanupTimeoutId := None;
                  conn_ws := length (sockets st) |}].
Proof. unfold load_fresh, resolvedOpts. destruct opts; reflexivity. Qed.

Lemma load_fresh_timers path st : timers (load_fresh path st) = timers st.
Proof. unfold load_fresh, resolvedOpts. destruct opts; reflexivity. Qed.

Lemma load_valueCache path st : valueCache (load path st) = valueCache st.
Proof.
  unfold load. destruct (queryCache st !! path) as [query|].
  - destruct (lazilyRefetch query); simpl; [|reflexivity].
    now rewrite load_fresh_valueCache.
  - apply load_fresh_valueCache.
Qed.

Lemma load_timers path st : timers (load path st) = timers st.
Proof.
  unfold load. destruct (queryCache st !! path) as [query|].
  - destruct (lazilyRefetch query); simpl; [|reflexivity].
    now rewrite load_fresh_timers.
  - apply load_fresh_timers.
Qed.

(** After [load] the entry of the path exists and is not stale. *)
Lemma load_installs path st :
  exists query,
    queryCache (load path st) !! path = Some query /\ lazilyRefetch query = false.
Proof.
  unfold load. destruct (queryCache st !! path) as [query|] eqn:E.
  - destruct (lazilyRefetch query) eqn:L; simpl.
    + rewrite load_fresh_queryCache, lookup_insert_eq. eauto.
    + exists query. auto.
  - rewrite load_fresh_queryCache, lookup_insert_eq. eauto.
Qed.

(** A stale or missing entry makes [load] start a load cycle: the new entry
    carries a handle and a subscriber list that did not exist before. *)
Lemma load_starts_cycle path st :
  (forall query, queryCache st !! path = Some query -> lazilyRefetch query = true) ->
  queryCache (load path st) !! path =
    Some {| deferred := length (promises st); lazilyRefetch := false;
            q_subscribe := length (conns st) |} /\
  promises (load path st) = promises st ++ [Pending] /\
  sockets (load path st) =
    sockets st ++ [{| ws_url := (resolvedOpts st).1; ws_path := path;
                      ws_conn := length (conns st); readyState := CONNECTING;
                      sent := [] |}].
Proof.
  intros Hstale. unfold load. destruct (queryCache st !! path) as [query|] eqn:E.
  - rewrite (Hstale query eq_refl). simpl.
    rewrite load_fresh_queryCache, load_fresh_promises, load_fresh_sockets.
    rewrite lookup_insert_eq. simpl. repeat split.
    unfold resolvedOpts. destruct opts; reflexivity.
  - rewrite load_fresh_queryCache, load_fresh_promises, load_fresh_sockets.
    rewrite lookup_insert_eq. auto.
Qed.

Lemma load_idempotent path st : load path (load path st) = load path st.
Proof.
  destruct (load_installs path st) as (query & Hq & Hl).
  unfold load at 1. now rewrite Hq, Hl.
Qed.

Lemma load_iter path st n : Nat.iter (S n) (load path) st = load path st.
Proof.
  induction n as [|n IH]; [reflexivity|].
  change (Nat.iter (S (S n)) (load path) st)
    with (load path (Nat.iter (S n) (load path) st)).
  rewrite IH. apply load_idempotent.
Qed.

(** C3: when the entry of the path exists and is not stale, [load] returns
    at once: the state after it is the state before it (both caches, every
    subscriber list, every connection and handle), however often it is
    called. *)
Theorem load_is_noop_while_fresh path st query (n : nat) :
  queryCache st !! path = Some query ->
  lazilyRefetch query = false ->
  load path st = st /\ Nat.iter n (load path) st = st.
Proof.
  intros Hq Hl.
  assert (H1 : load path st = st) by (unfold load; now rewrite Hq, Hl).
  split; [exact H1|].
  induction n as [|n IH]; [reflexivity|].
  simpl. now rewrite IH.
Qed.

(** C6: with no entry for the path, [read] and [subscribe] throw the
    invariant error and leave the state as it was. *)
Theorem read_and_subscribe_need_load path st (suspend : bool) (listener : nat) :
  queryCache st !! path = None ->
  read path suspend st = (Throw (Error (invariant_message path)), st) /\
  subscribe path listener st = (Throw (Error (invariant_message path)), st).
Proof.
  intros Hq. unfold read, subscribe. now rewrite Hq.
Qed.

(** *** What [read] does *)

(** [read] changes the state only by the [load] it calls on a stale entry. *)
Lemma read_state path suspend st :
  (read path suspend st).2 =
  match queryCache st !! path with
  | Some query => if lazilyRefetch query then load path st else st
  | None => st
  end.
Proof.
  unfold read. destruct (queryCache st !! path) as [query|]; [|reflexivity].
  destruct (valueCache _ !! path) as [value|].
  - destruct (truthy value).
    + destruct (if typeof_object value then error_in value else None) as [detail|].
      * destruct (decodeURIComponent path); [|reflexivity].
        destruct (ToString detail); reflexivity.
      * reflexivity.
    + destruct suspend; reflexivity.
  - destruct suspend; reflexivity.
Qed.

(** Without a truthy value in the cache, [read] suspends on the handle of the
    entry it looked up first, or returns [null]. *)
Lemma read_without_value path suspend st query :
  queryCache st !! path = Some query ->
  (forall value, valueCache st !! path = Some value -> truthy value = false) ->
  read path suspend st =
  (if suspend then Throw (ThrownPromise (deferred query)) else Return JNull,
   if lazilyRefetch query then load path st else st).
Proof.
  intros Hq Hv. unfold read. rewrite Hq.
  assert (E : valueCache (if lazilyRefetch query then load path st else st) !! path
              = valueCache st !! path).
  { destruct (lazilyRefetch query); [now rewrite load_valueCache | reflexivity]. }
  rewrite E. destruct (valueCache st !! path) as [value|] eqn:Ev.
  - rewrite (Hv value eq_refl). destruct suspend; reflexivity.
  - destruct suspend; reflexivity.
Qed.

Lemma falsy_payloads :
  truthy JNull = false /\ truthy (JNum 0%float) = false /\
  truthy (JNum (-0)%float) = false /\
  truthy (JStr "") = false /\ truthy (JBool false) = false.
Proof. repeat split; reflexivity. Qed.

(** C9: with an entry for the path and a cached value that is falsy ([null],
    zero, the empty string, [false]), [read] does what it does with nothing
    cached: it throws the promise of the entry when [suspend] is true and
    returns [null] when it is false. What it returns is that [null], not the
    payload. *)
Theorem read_treats_falsy_as_missing path st query value (suspend : bool) :
  queryCache st !! path = Some query ->
  valueCache st !! path = Some value ->
  truthy value = false ->
  (read path true st).1 = Throw (ThrownPromise (deferred query)) /\
  (read path false st).1 = Return JNull /\
  (read path suspend st).1 = (read path suspend (set_valueCache (delete path) st)).1 /\
  (value <> JNull -> (read path suspend st).1 <> Return value).
Proof.
  intros Hq Hv Hf.
  assert (R : forall b, (read path b st).1 =
                        if b then Throw (ThrownPromise (deferred query)) else Return JNull).
  { intros b. rewrite (read_without_value path b st query Hq); [reflexivity|].
    intros v Hv'. congruence. }
  repeat split.
  - apply R.
  - apply R.
  - rewrite R.
    rewrite (read_without_value path suspend (set_valueCache (delete path) st) query);
      [reflexivity | exact Hq |].
    simpl. intros v Hv'. now rewrite lookup_delete_eq in Hv'.
  - intros Hn. rewrite R. destruct suspend; [discriminate|].
    intros E. injection E as E. now apply Hn.
Qed.

(** *** Handles are allocated before they are stored *)

Lemma load_promises_length path st :
  length (promises st) <= length (promises (load path st)).
Proof.
  unfold load. destruct (queryCache st !! path) as [query|].
  - destruct (lazilyRefetch query); simpl; [|lia].
    rewrite load_fresh_promises, length_app. simpl. lia.
  - rewrite load_fresh_promises, length_app. simpl. lia.
Qed.

Lemma load_handles_allocated path st :
  handles_allocated st -> handles_allocated (load path st).
Proof.
  intros H p q. unfold load. destruct (queryCache st !! path) as [query|] eqn:E.
  - destruct (lazilyRefetch query); simpl; [|apply H].
    rewrite load_fresh_queryCache, load_fresh_promises, length_app. simpl.
    destruct (decide (path = p)) as [->|Hne].
    + rewrite lookup_insert_eq. intros [= <-]. simpl. lia.
    + rewrite !lookup_insert_ne by done. intros Hq. specialize (H p q Hq). lia.
  - rewrite load_fresh_queryCache, load_fresh_promises, length_app. simpl.
    destruct (decide (path = p)) as [->|Hne].
    + rewrite lookup_insert_eq. intros [= <-]. simpl. lia.
    + rewrite !lookup_insert_ne by done. intros Hq. specialize (H p q Hq). lia.
Qed.

(** Rewriting the flag of an entry keeps its handle. *)
Lemma spread_handles_allocated path query b st :
  queryCache st !! path = Some query ->
  handles_allocated st ->
  forall p q, <[path := spread_lazilyRefetch query b]> (queryCache st) !! p = Some q ->
              deferred q < length (promises st).
Proof.
  intros Hq H p q. destruct (decide (path = p)) as [->|Hne].
  - rewrite lookup_insert_eq. intros [= <-]. simpl. eapply H, Hq.
  - rewrite lookup_insert_ne by done. apply H.
Qed.

Lemma step_handles_allocated e st :
  handles_allocated st -> handles_allocated (step e st).
Proof.
  intros H. destruct e; simpl.
  - now apply load_handles_allocated.
  - rewrite read_state. destruct (queryCache st !! path) as [query|]; [|exact H].
    destruct (lazilyRefetch query); [now apply load_handles_allocated | exact H].
  - unfold subscribe. destruct (queryCache st !! path); exact H.
  - unfold call_unsubscribe. destruct (handed_out conn listener st); [|exact H].
    unfold unsubscribe. destruct (conns st !! conn) as [c|]; [|exact H].
    destruct (cleanupTimeoutId c); exact H.
  - unfold clearQuery. destruct (queryCache st !! path) as [query|] eqn:E; [|exact H].
    intros p q. simpl. now apply spread_handles_allocated.
  - unfold deliver_open. destruct (sockets st !! ws) as [w|]; [|exact H].
    destruct (readyState w); try exact H.
    unfold on_open. simpl. destruct (alter _ ws (sockets st) !! ws); exact H.
  - unfold deliver_message. destruct (sockets st !! ws) as [w|] eqn:Es; [|exact H].
    destruct (readyState w); try exact H.
    unfold on_message, onMessage. rewrite Es. simpl.
    destruct (conns st !! ws_conn w); [|exact H].
    intros p q Hq. simpl. rewrite length_alter. eapply H, Hq.
  - unfold deliver_error. destruct (sockets st !! ws) as [w|] eqn:Es; [|exact H].
    destruct (is_CLOSED (readyState w)); [exact H|].
    unfold on_error, onError. rewrite Es.
    destruct (conns st !! ws_conn w); [|exact H].
    intros p q Hq. simpl. rewrite length_alter. eapply H, Hq.
  - unfold deliver_close. destruct (sockets st !! ws) as [w|] eqn:Es; [|exact H].
    destruct (is_CLOSED (readyState w)); [exact H|].
    unfold on_close. simpl.
    destruct (alter (set_readyState CLOSED) ws (sockets st) !! ws) as [w'|]; [|exact H].
    destruct (code =? 1006)%Z; [exact H|].
    unfold onClose. simpl.
    destruct (queryCache st !! ws_path w') as [query|] eqn:E; [|exact H].
    intros p q. simpl. now apply spread_handles_allocated.
  - unfold timer_fires. destruct (List.find (has_id id) (timers st)) as [t|]; [|exact H].
    destruct (action t) as [ws conn path url|conn]; simpl.
    + unfold reconnect_callback. simpl. destruct (sockets st !! ws) as [w|]; [|exact H].
      destruct (is_CLOSED (readyState w)); exact H.
    + unfold cleanup_callback. simpl. destruct (conns st !! conn) as [c|]; [|exact H].
      destruct (length (subscriptions c) =? 0); exact H.
Qed.

Lemma run_handles_allocated trace st :
  handles_allocated st -> handles_allocated (run trace st).
Proof.
  revert st. induction trace as [|e trace IH]; intros st H; [exact H|].
  simpl. apply IH. now apply step_handles_allocated.
Qed.

Lemma init_handles_allocated : handles_allocated init.
Proof. intros p q. simpl. now rewrite lookup_empty. Qed.

(** C10: [read] on a stale entry calls [load], which installs a new entry
    with a handle created by that call; with no value cached and [suspend]
    true, the promise it throws is the one of the entry it looked up before
    the reload, which is not the handle of the new entry. *)
Theorem read_stale_throws_old_promise (trace : list Event) path query :
  let st := run trace init in
  queryCache st !! path = Some query ->
  lazilyRefetch query = true ->
  (forall value, valueCache st !! path = Some value -> truthy value = false) ->
  exists query',
    (read path true st = (Throw (ThrownPromise (deferred query)), load path st)) /\
    (queryCache (load path st) !! path = Some query') /\
    (lazilyRefetch query' = false) /\
    (deferred query' = length (promises st)) /\
    (promises (load path st) !! (deferred query') = Some Pending) /\
    (deferred query' <> deferred query).
Proof.
  intros st Hq Hl Hv.
  assert (Ha : handles_allocated st)
    by (apply run_handles_allocated, init_handles_allocated).
  destruct (load_starts_cycle path st) as (Hq' & Hp & _).
  { intros q' Hq''. congruence. }
  eexists. split; [|split; [exact Hq'|]].
  - rewrite (read_without_value path true st query Hq Hv). now rewrite Hl.
  - simpl. repeat split.
    + rewrite Hp. now rewrite lookup_app_r, Nat.sub_diag by lia.
    + specialize (Ha path query Hq). lia.
Qed.

(** *** The error payload *)

Lemma append_assoc (a b c : string) : (a +:+ b) +:+ c = a +:+ (b +:+ c).
Proof.
  induction a as [|x a IH]; [reflexivity|].
  change (String x ((a +:+ b) +:+ c) = String x (a +:+ (b +:+ c))).
  now rewrite IH.
Qed.

Lemma read_error_message_includes decoded detail :
  includes decoded (read_error_message decoded detail) /\
  includes detail (read_error_message decoded detail).
Proof.
  unfold read_error_message. split.
  - exists ("Error reading " +:+ dquote), (dquote +:+ " - [" +:+ detail +:+ "]").
    now rewrite append_assoc.
  - exists ("Error reading " +:+ dquote +:+ decoded +:+ dquote +:+ " - ["), "]".
    now rewrite !append_assoc.
Qed.

(** *** Closure of a socket *)

Lemma deliver_close_unfold ws w code st :
  sockets st !! ws = Some w ->
  is_CLOSED (readyState w) = false ->
  deliver_close ws code st =
  let st1 := set_sockets (alter (set_readyState CLOSED) ws) st in
  if (code =? 1006)%Z
  then (setTimeout (Reconnect ws (ws_conn w) (ws_path w) (ws_url w)) 1000 st1).2
  else onClose (ws_path w) st1.
Proof.
  intros Hs Hc. unfold deliver_close. rewrite Hs, Hc. unfold on_close. simpl.
  now rewrite list_lookup_alter_eq, Hs.
Qed.

(** C5, as the code has it: a closure with a code other than 1006 clears the
    value of the path and replaces its entry by a copy flagged
    [lazilyRefetch = true]; a closure with code 1006 leaves both caches as
    they are. *)
Theorem close_marks_stale_unless_1006 ws w (code : Z) query st :
  sockets st !! ws = Some w ->
  is_CLOSED (readyState w) = false ->
  queryCache st !! ws_path w = Some query ->
  let st' := deliver_close ws code st in
  (code <> 1006%Z ->
   valueCache st' = delete (ws_path w) (valueCache st) /\
   valueCache st' !! ws_path w = None /\
   queryCache st' = <[ws_path w := spread_lazilyRefetch query true]> (queryCache st) /\
   queryCache st' !! ws_path w = Some (spread_lazilyRefetch query true)) /\
  (code = 1006%Z ->
   valueCache st' = valueCache st /\ queryCache st' = queryCache st).
Proof.
  intros Hs Hc Hq st'. subst st'. rewrite (deliver_close_unfold ws w code st Hs Hc).
  simpl. split.
  - intros Hne. apply Z.eqb_neq in Hne. rewrite Hne. unfold onClose. simpl.
    rewrite Hq. simpl. repeat split.
    + apply lookup_delete_eq.
    + apply lookup_insert_eq.
  - intros ->. simpl. auto.
Qed.

(** A timer that has fired is no longer pending. *)
Lemma find_after_clear id (ts : list Timer) :
  List.find (has_id id) (List.filter (fun t' => negb (has_id id t')) ts) = None.
Proof.
  induction ts as [|t ts IH]; [reflexivity|]. simpl.
  destruct (has_id id t) eqn:E; simpl; [exact IH|]. now rewrite E.
Qed.

Lemma timer_fires_timers id st :
  timers (timer_fires id st) = List.filter (fun t' => negb (has_id id t')) (timers st) \/
  timer_fires id st = st.
Proof.
  unfold timer_fires. destruct (List.find (has_id id) (timers st)) as [t|]; [|now right].
  left. destruct (action t) as [ws conn path url|conn]; simpl.
  - unfold reconnect_callback. simpl. destruct (sockets st !! ws) as [w|]; [|reflexivity].
    destruct (is_CLOSED (readyState w)); reflexivity.
  - unfold cleanup_callback. simpl. destruct (conns st !! conn) as [c|]; [|reflexivity].
    destruct (length (subscriptions c) =? 0); reflexivity.
Qed.

Lemma timer_fires_once id st : timer_fires id (timer_fires id st) = timer_fires id st.
Proof.
  destruct (timer_fires_timers id st) as [H|H]; [|now rewrite !H].
  unfold timer_fires at 1. now rewrite H, find_after_clear.
Qed.

(** *** Subscribers and the teardown timer *)

Lemma clearTimeout_frame id st :
  conns (clearTimeout id st) = conns st /\
  sockets (clearTimeout id st) = sockets st /\
  timer_seq (clearTimeout id st) = timer_seq st /\
  queryCache (clearTimeout id st) = queryCache st /\
  valueCache (clearTimeout id st) = valueCache st /\
  promises (clearTimeout id st) = promises st.
Proof. destruct id; repeat split. Qed.

Lemma unsubscribe_unfold conn listener c st :
  conns st !! conn = Some c ->
  let st' := unsubscribe conn listener st in
  conns st' =
    alter (set_cleanupTimeoutId (Some (timer_seq st))) conn
      (alter (set_subscriptions (splice1 (indexOf listener (subscriptions c)))) conn
         (conns st)) /\
  timers st' =
    timers (clearTimeout (cleanupTimeoutId c) st) ++
    [{| timer_id := timer_seq st; delay := 9999; action := Cleanup conn |}] /\
  sockets st' = sockets st /\
  queryCache st' = queryCache st /\
  valueCache st' = valueCache st /\
  promises st' = promises st.
Proof.
  intros Hc. unfold unsubscribe. rewrite Hc. simpl.
  destruct (clearTimeout_frame (cleanupTimeoutId c) st) as (-> & -> & -> & -> & -> & ->).
  repeat split.
Qed.


(** *** What each step leaves alone *)

Lemma subscribe_frame path listener st :
  let st' := (subscribe path listener st).2 in
  valueCache st' = valueCache st /\ queryCache st' = queryCache st /\
  sockets st' = sockets st /\ timers st' = timers st.
Proof.
  unfold subscribe. destruct (queryCache st !! path); repeat split.
Qed.

Lemma call_unsubscribe_frame conn listener st :
  let st' := call_unsubscribe conn listener st in
  valueCache st' = valueCache st /\ queryCache st' = queryCache st /\
  sockets st' = sockets st.
Proof.
  unfold call_unsubscribe. destruct (handed_out conn listener st); [|repeat split].
  destruct (conns st !! conn) as [c|] eqn:Hc.
  - destruct (unsubscribe_unfold conn listener c st Hc) as (_ & _ & -> & -> & -> & _).
    repeat split.
  - unfold unsubscribe. rewrite Hc. repeat split.
Qed.

Lemma deliver_open_frame ws st :
  let st' := deliver_open ws st in
  valueCache st' = valueCache st /\ queryCache st' = queryCache st /\
  timers st' = timers st.
Proof.
  unfold deliver_open. destruct (sockets st !! ws) as [w|]; [|repeat split].
  destruct (readyState w); try (repeat split; fail).
  unfold on_open. simpl.
  destruct (alter (set_readyState OPEN) ws (sockets st) !! ws); repeat split.
Qed.

Lemma deliver_error_frame ws st :
  let st' := deliver_error ws st in
  valueCache st' = valueCache st /\ queryCache st' = queryCache st /\
  sockets st' = sockets st /\ timers st' = timers st.
Proof.
  unfold deliver_error. destruct (sockets st !! ws) as [w|] eqn:Hs; [|repeat split].
  destruct (is_CLOSED (readyState w)); [repeat split|].
  unfold on_error, onError. rewrite Hs.
  destruct (conns st !! ws_conn w); repeat split.
Qed.

Lemma onMessage_frame conn path data st :
  let st' := onMessage conn path data st in
  valueCache st' = <[path := data]> (valueCache st) /\
  queryCache st' = queryCache st /\
  sockets st' = sockets st /\ timers st' = timers st.
Proof.
  unfold onMessage. simpl. destruct (conns st !! conn); repeat split.
Qed.

Lemma timer_fires_frame id st :
  let st' := timer_fires id st in
  valueCache st' = valueCache st /\ queryCache st' = queryCache st.
Proof.
  unfold timer_fires. destruct (List.find (has_id id) (timers st)) as [t|]; [|repeat split].
  destruct (action t) as [ws conn path url|conn]; simpl.
  - unfold reconnect_callback. simpl. destruct (sockets st !! ws) as [w|]; [|repeat split].
    destruct (is_CLOSED (readyState w)); repeat split.
  - unfold cleanup_callback. simpl. destruct (conns st !! conn) as [c|]; [|repeat split].
    destruct (length (subscriptions c) =? 0); repeat split.
Qed.

(** An entry that is stale after [load] was the same stale entry before. *)
Lemma load_keeps_stale path st p q :
  queryCache (load path st) !! p = Some q ->
  lazilyRefetch q = true ->
  queryCache st !! p = Some q.
Proof.
  unfold load. destruct (queryCache st !! path) as [query|] eqn:E.
  - destruct (lazilyRefetch query) eqn:L; simpl; [|auto].
    rewrite load_fresh_queryCache. simpl.
    destruct (decide (path = p)) as [->|Hne].
    + rewrite lookup_insert_eq. intros [= <-]. discriminate.
    + rewrite !lookup_insert_ne by done. auto.
  - rewrite load_fresh_queryCache.
    destruct (decide (path = p)) as [->|Hne].
    + rewrite lookup_insert_eq. intros [= <-]. discriminate.
    + rewrite lookup_insert_ne by done. auto.
Qed.

(** *** Stale implies cleared *)

Lemma stale_implies_cleared_frame st st' :
  valueCache st' = valueCache st ->
  queryCache st' = queryCache st ->
  stale_implies_cleared st -> stale_implies_cleared st'.
Proof. intros Hv Hq H p q. rewrite Hv, Hq. apply H. Qed.

Lemma load_stale_implies_cleared path st :
  stale_implies_cleared st -> stale_implies_cleared (load path st).
Proof.
  intros H p q Hq Hl. rewrite load_valueCache.
  eapply H; [|exact Hl]. eapply load_keeps_stale; eauto.
Qed.

(** Deleting the value and flagging the entry, as [clearQuery] and [onClose]
    do. *)
Lemma flag_stale_implies_cleared path query st :
  stale_implies_cleared st ->
  forall p q,
    <[path := spread_lazilyRefetch query true]> (queryCache st) !! p = Some q ->
    lazilyRefetch q = true ->
    delete path (valueCache st) !! p = None.
Proof.
  intros H p q. destruct (decide (path = p)) as [->|Hne].
  - intros _ _. apply lookup_delete_eq.
  - rewrite lookup_insert_ne, lookup_delete_ne by done. apply H.
Qed.

(** Every step keeps the property, except the delivery of a frame on an open
    socket of a path whose entry is stale. *)
Lemma step_stale_implies_cleared (e : Event) st :
  stale_implies_cleared st ->
  message_for_stale st e = false ->
  stale_implies_cleared (step e st).
Proof.
  intros H Hm. destruct e; simpl.
  - now apply load_stale_implies_cleared.
  - rewrite read_state. destruct (queryCache st !! path) as [query|]; [|exact H].
    destruct (lazilyRefetch query); [now apply load_stale_implies_cleared | exact H].
  - destruct (subscribe_frame path listener st) as (Hv & Hq & _).
    eapply stale_implies_cleared_frame; eauto.
  - destruct (call_unsubscribe_frame conn listener st) as (Hv & Hq & _).
    eapply stale_implies_cleared_frame; eauto.
  - unfold clearQuery. destruct (queryCache st !! path) as [query|] eqn:E.
    + intros p q. simpl. now apply flag_stale_implies_cleared.
    + intros p q Hq Hl. simpl in *. destruct (decide (path = p)) as [->|Hne].
      * apply lookup_delete_eq.
      * rewrite lookup_delete_ne by done. eauto.
  - destruct (deliver_open_frame ws st) as (Hv & Hq & _).
    eapply stale_implies_cleared_frame; eauto.
  - unfold deliver_message. simpl in Hm.
    destruct (sockets st !! ws) as [w|] eqn:Hs; [|exact H].
    destruct (readyState w); try exact H.
    unfold on_message. rewrite Hs.
    destruct (onMessage_frame (ws_conn w) (ws_path w) parsed st) as (Hv & Hq & _).
    intros p q. rewrite Hv, Hq. intros Hp Hl.
    destruct (decide (ws_path w = p)) as [<-|Hne].
    + rewrite Hp in Hm. congruence.
    + rewrite lookup_insert_ne by done. eauto.
  - destruct (deliver_error_frame ws st) as (Hv & Hq & _).
    eapply stale_implies_cleared_frame; eauto.
  - destruct (sockets st !! ws) as [w|] eqn:Hs;
      [|unfold deliver_close; rewrite Hs; exact H].
    destruct (is_CLOSED (readyState w)) eqn:Hc;
      [unfold deliver_close; rewrite Hs, Hc; exact H|].
    rewrite (deliver_close_unfold ws w code st Hs Hc).
    simpl. destruct (code =? 1006)%Z; [exact H|].
    unfold onClose. simpl. destruct (queryCache st !! ws_path w) as [query|]; [|exact H].
    intros p q. simpl. now apply flag_stale_implies_cleared.
  - destruct (timer_fires_frame id st) as (Hv & Hq).
    eapply stale_implies_cleared_frame; eauto.
Qed.

(** *** Counting *)

Lemma count_if_app {A} (f : A -> bool) (l1 l2 : list A) :
  count_if f (l1 ++ l2) = count_if f l1 + count_if f l2.
Proof. induction l1 as [|x l1 IH]; simpl; [reflexivity | rewrite IH; lia]. Qed.

Lemma count_if_le {A} (f g : A -> bool) (l : list A) :
  (forall x, f x = true -> g x = true) -> count_if f l <= count_if g l.
Proof.
  intros Hfg. induction l as [|x l IH]; simpl; [lia|].
  destruct (f x) eqn:E; [rewrite (Hfg x E); lia | destruct (g x); lia].
Qed.

Lemma count_if_alter_same {A} (f : A -> bool) (g : A -> A) (i : nat) (l : list A) :
  (forall x, f (g x) = f x) -> count_if f (alter g i l) = count_if f l.
Proof.
  intros Hfg. revert i. induction l as [|x l IH]; intros [|i]; simpl; auto.
  - now rewrite Hfg.
  - f_equal. apply IH.
Qed.

Lemma count_if_alter_at {A} (f : A -> bool) (g : A -> A) (i : nat) (l : list A) x :
  l !! i = Some x ->
  count_if f (alter g i l) + (if f x then 1 else 0) =
  count_if f l + (if f (g x) then 1 else 0).
Proof.
  revert i. induction l as [|y l IH]; intros [|i]; simpl; try discriminate.
  - intros [= ->]. destruct (f x), (f (g x)); lia.
  - intros Hi. specialize (IH i Hi). unfold alter in IH.
    destruct (f x), (f (g x)), (f y); lia.
Qed.

Lemma count_if_filter_le {A} (f g : A -> bool) (l : list A) :
  count_if f (List.filter g l) <= count_if f l.
Proof.
  induction l as [|x l IH]; simpl; [lia|].
  destruct (g x); simpl; destruct (f x); lia.
Qed.

Lemma count_if_fired (f : Timer -> bool) id t (l : list Timer) :
  List.find (has_id id) l = Some t ->
  count_if f (List.filter (fun t' => negb (has_id id t')) l) + (if f t then 1 else 0)
  <= count_if f l.
Proof.
  induction l as [|x l IH]; simpl; [discriminate|].
  destruct (has_id id x) eqn:E; simpl.
  - intros [= ->]. pose proof (count_if_filter_le f (fun t' => negb (has_id id t')) l). lia.
  - intros Hf. specialize (IH Hf). lia.
Qed.

Lemma open_le_live st path : open_connections st path <= live_connections st path.
Proof.
  apply count_if_le. intros w. unfold socket_open, socket_live.
  destruct (String.eqb (ws_path w) path); [|discriminate].
  now destruct (readyState w).
Qed.

(** *** At most one connection per path *)

Lemma single_connection_mono st st' :
  (forall path, live_connections st' path + pending_reconnects st' path
                <= live_connections st path + pending_reconnects st path) ->
  queryCache st' = queryCache st ->
  single_connection st -> single_connection st'.
Proof.
  intros Hle Hq H path. destruct (H path) as [H1 H2]. specialize (Hle path).
  split; [lia|]. intros Hge. rewrite Hq. apply H2. lia.
Qed.

Lemma init_single_connection : single_connection init.
Proof.
  intros path. unfold live_connections, pending_reconnects. simpl. split; [lia|].
  intros Hge. lia.
Qed.

Lemma load_fresh_live path st p :
  live_connections (load_fresh path st) p =
  live_connections st p + (if String.eqb path p then 1 else 0).
Proof.
  unfold live_connections. rewrite load_fresh_sockets, count_if_app. simpl.
  unfold socket_live. simpl. destruct (String.eqb path p); simpl; lia.
Qed.

Lemma load_fresh_pending path st p :
  pending_reconnects (load_fresh path st) p = pending_reconnects st p.
Proof. unfold pending_reconnects. now rewrite load_fresh_timers. Qed.

Lemma load_single_connection path st :
  single_connection st -> single_connection (load path st).
Proof.
  intros H.
  assert (Hgo : forall st0,
    live_connections st0 path + pending_reconnects st0 path = 0 ->
    (forall p, live_connections st0 p = live_connections st p) ->
    (forall p, pending_reconnects st0 p = pending_reconnects st p) ->
    (forall p, p <> path -> queryCache st0 !! p = queryCache st !! p) ->
    single_connection (load_fresh path st0)).
  { intros st0 H0 Hl Hp Hq p.
    rewrite load_fresh_live, load_fresh_pending, load_fresh_queryCache.
    destruct (String.eqb path p) eqn:E.
    - apply String.eqb_eq in E. subst p. split; [lia|].
      intros _. rewrite lookup_insert_eq. eauto.
    - apply String.eqb_neq in E. rewrite lookup_insert_ne by done.
      rewrite Hl, Hp, Hq by congruence. rewrite !Nat.add_0_r.
      destruct (H p) as [H1 H2]. split; [lia | exact H2]. }
  unfold load. destruct (queryCache st !! path) as [query|] eqn:E.
  - destruct (lazilyRefetch query) eqn:L; simpl; [|exact H].
    apply Hgo; try reflexivity.
    + change (live_connections st path + pending_reconnects st path = 0).
      destruct (H path) as [H1 H2].
      destruct (live_connections st path + pending_reconnects st path) as [|n];
        [reflexivity|].
      destruct H2 as (q & Hq & Hl); [lia|]. congruence.
    + intros p Hne. simpl. now rewrite lookup_insert_ne.
  - apply Hgo; try reflexivity.
    destruct (H path) as [H1 H2].
    destruct (live_connections st path + pending_reconnects st path) as [|n];
      [reflexivity|].
    destruct H2 as (q & Hq & Hl); [lia|]. congruence.
Qed.

Lemma socket_live_WebSocket_close path w :
  socket_live path (WebSocket_close w) = socket_live path w.
Proof.
  unfold socket_live, WebSocket_close.
  destruct (readyState w) eqn:E; simpl; rewrite ?E; reflexivity.
Qed.

Lemma socket_live_set path r w :
  socket_live path (set_readyState r w) =
  String.eqb (ws_path w) path && negb (is_CLOSED r).
Proof. reflexivity. Qed.

Lemma socket_live_not_closed path w :
  is_CLOSED (readyState w) = false ->
  socket_live path w = String.eqb (ws_path w) path.
Proof. intros H. unfold socket_live. rewrite H. apply andb_true_r. Qed.

Lemma socket_live_push_sent path frame w :
  socket_live path (push_sent frame w) = socket_live path w.
Proof. reflexivity. Qed.

Lemma deliver_open_live ws st path :
  live_connections (deliver_open ws st) path = live_connections st path.
Proof.
  unfold deliver_open. destruct (sockets st !! ws) as [w|] eqn:Hs; [|reflexivity].
  destruct (readyState w) eqn:Hr; try reflexivity.
  unfold on_open. simpl. rewrite list_lookup_alter_eq, Hs. simpl.
  unfold live_connections. simpl.
  rewrite count_if_alter_same by apply socket_live_push_sent.
  pose proof (count_if_alter_at (socket_live path) (set_readyState OPEN) ws
                (sockets st) w Hs) as Hc.
  rewrite socket_live_set, (socket_live_not_closed path w) in Hc by now rewrite Hr.
  simpl in Hc. rewrite andb_true_r in Hc.
  destruct (String.eqb (ws_path w) path); lia.
Qed.

Lemma timer_fires_total id st path :
  live_connections (timer_fires id st) path + pending_reconnects (timer_fires id st) path
  <= live_connections st path + pending_reconnects st path.
Proof.
  unfold timer_fires. destruct (List.find (has_id id) (timers st)) as [t|] eqn:Hf; [|lia].
  pose proof (count_if_fired (reconnect_for path) id t (timers st) Hf) as Hp.
  unfold reconnect_for at 2 in Hp.
  destruct (action t) as [ws conn p url|conn]; simpl.
  - unfold reconnect_callback. simpl. destruct (sockets st !! ws) as [w|].
    + destruct (is_CLOSED (readyState w)); unfold live_connections, pending_reconnects;
        simpl.
      * rewrite count_if_app. simpl. unfold socket_live at 2. simpl.
        destruct (String.eqb p path); simpl; lia.
      * destruct (String.eqb p path); lia.
    + unfold live_connections, pending_reconnects. simpl.
      destruct (String.eqb p path); lia.
  - unfold cleanup_callback. simpl. destruct (conns st !! conn) as [c|].
    + destruct (length (subscriptions c) =? 0);
        unfold live_connections, pending_reconnects; simpl.
      * rewrite count_if_alter_same by apply socket_live_WebSocket_close. lia.
      * lia.
    + unfold live_connections, pending_reconnects. simpl. lia.
Qed.

Lemma call_unsubscribe_pending conn listener st path :
  pending_reconnects (call_unsubscribe conn listener st) path
  <= pending_reconnects st path.
Proof.
  unfold call_unsubscribe. destruct (handed_out conn listener st); [|lia].
  destruct (conns st !! conn) as [c|] eqn:Hc.
  - destruct (unsubscribe_unfold conn listener c st Hc) as (_ & Ht & _).
    unfold pending_reconnects. rewrite Ht, count_if_app.
    change (count_if (reconnect_for path)
              [{| timer_id := timer_seq st; delay := 9999; action := Cleanup conn |}])
      with 0.
    destruct (cleanupTimeoutId c); simpl; [|lia].
    pose proof (count_if_filter_le (reconnect_for path)
                  (fun t => negb (has_id n t)) (timers st)). lia.
  - unfold unsubscribe. rewrite Hc. lia.
Qed.

(** The closing of a socket takes one from the live sockets of its path. *)
Lemma closed_live ws w st path :
  sockets st !! ws = Some w ->
  is_CLOSED (readyState w) = false ->
  count_if (socket_live path) (alter (set_readyState CLOSED) ws (sockets st))
  + (if String.eqb (ws_path w) path then 1 else 0)
  = live_connections st path.
Proof.
  intros Hs Hc.
  pose proof (count_if_alter_at (socket_live path) (set_readyState CLOSED) ws
                (sockets st) w Hs) as H.
  rewrite socket_live_set, (socket_live_not_closed path w Hc) in H.
  simpl in H. rewrite andb_false_r in H.
  unfold live_connections.
  destruct (String.eqb (ws_path w) path); lia.
Qed.

Lemma deliver_close_single_connection ws code st :
  single_connection st -> single_connection (deliver_close ws code st).
Proof.
  intros H.
  destruct (sockets st !! ws) as [w|] eqn:Hs;
    [|unfold deliver_close; rewrite Hs; exact H].
  destruct (is_CLOSED (readyState w)) eqn:Hc;
    [unfold deliver_close; rewrite Hs, Hc; exact H|].
  rewrite (deliver_close_unfold ws w code st Hs Hc). simpl.
  destruct (code =? 1006)%Z.
  - apply (single_connection_mono st); [|reflexivity|exact H].
    intros path. pose proof (closed_live ws w st path Hs Hc) as Hl.
    unfold live_connections at 1, pending_reconnects at 1. simpl.
    rewrite count_if_app. simpl. unfold reconnect_for at 2. simpl.
    unfold pending_reconnects.
    destruct (String.eqb (ws_path w) path); lia.
  - intros path. pose proof (closed_live ws w st path Hs Hc) as Hl.
    destruct (H path) as [H1 H2].
    assert (Hcounts :
      live_connections (onClose (ws_path w)
        (set_sockets (alter (set_readyState CLOSED) ws) st)) path =
      count_if (socket_live path) (alter (set_readyState CLOSED) ws (sockets st)) /\
      pending_reconnects (onClose (ws_path w)
        (set_sockets (alter (set_readyState CLOSED) ws) st)) path =
      pending_reconnects st path).
    { unfold onClose. simpl. destruct (queryCache st !! ws_path w); split; reflexivity. }
    destruct Hcounts as [-> ->].
    destruct (String.eqb (ws_path w) path) eqn:E.
    + split; [lia|]. intros Hge. lia.
    + split; [lia|]. intros Hge. destruct H2 as (q & Hq & Hlz); [lia|].
      exists q. split; [|exact Hlz]. apply String.eqb_neq in E.
      unfold onClose. simpl. destruct (queryCache st !! ws_path w); simpl; [|exact Hq].
      now rewrite lookup_insert_ne.
Qed.

Lemma step_single_connection (e : Event) st :
  is_clearQuery e = false ->
  single_connection st -> single_connection (step e st).
Proof.
  intros He H. destruct e; simpl; try discriminate.
  - now apply load_single_connection.
  - rewrite read_state. destruct (queryCache st !! path) as [query|]; [|exact H].
    destruct (lazilyRefetch query); [now apply load_single_connection | exact H].
  - destruct (subscribe_frame path listener st) as (_ & Hq & Hs & Ht).
    apply (single_connection_mono st); [|exact Hq|exact H].
    intros p. unfold live_connections, pending_reconnects. now rewrite Hs, Ht.
  - destruct (call_unsubscribe_frame conn listener st) as (_ & Hq & Hs).
    apply (single_connection_mono st); [|exact Hq|exact H].
    intros p. pose proof (call_unsubscribe_pending conn listener st p).
    unfold live_connections. rewrite Hs. fold (live_connections st p). lia.
  - destruct (deliver_open_frame ws st) as (_ & Hq & Ht).
    apply (single_connection_mono st); [|exact Hq|exact H].
    intros p. rewrite deliver_open_live. unfold pending_reconnects. now rewrite Ht.
  - apply (single_connection_mono st); [| |exact H].
    + intros p. unfold deliver_message. destruct (sockets st !! ws) as [w|] eqn:Hs; [|lia].
      destruct (readyState w); try lia. unfold on_message. rewrite Hs.
      destruct (onMessage_frame (ws_conn w) (ws_path w) parsed st) as (_ & _ & Hs' & Ht).
      unfold live_connections, pending_reconnects. now rewrite Hs', Ht.
    + unfold deliver_message. destruct (sockets st !! ws) as [w|] eqn:Hs; [|reflexivity].
      destruct (readyState w); try reflexivity. unfold on_message. rewrite Hs.
      now destruct (onMessage_frame (ws_conn w) (ws_path w) parsed st) as (_ & -> & _).
  - destruct (deliver_error_frame ws st) as (_ & Hq & Hs & Ht).
    apply (single_connection_mono st); [|exact Hq|exact H].
    intros p. unfold live_connections, pending_reconnects. now rewrite Hs, Ht.
  - now apply deliver_close_single_connection.
  - destruct (timer_fires_frame id st) as (_ & Hq).
    apply (single_connection_mono st); [|exact Hq|exact H].
    intros p. apply timer_fires_total.
Qed.

Lemma run_single_connection (trace : list Event) st :
  forallb (fun e => negb (is_clearQuery e)) trace = true ->
  single_connection st -> single_connection (run trace st).
Proof.
  revert st. induction trace as [|e trace IH]; intros st Ht H; [exact H|].
  simpl in Ht. apply andb_prop in Ht as [He Ht]. simpl. apply IH; [exact Ht|].
  apply step_single_connection; [|exact H]. now destruct (is_clearQuery e).
Qed.

Lemma load_lengths path st :
  length (sockets (load path st)) <= S (length (sockets st)) /\
  length (promises (load path st)) <= S (length (promises st)) /\
  length (conns (load path st)) <= S (length (conns st)).
Proof.
  unfold load. destruct (queryCache st !! path) as [query|].
  - destruct (lazilyRefetch query); simpl; [|lia].
    rewrite load_fresh_sockets, load_fresh_promises, load_fresh_conns, !length_app.
    simpl. lia.
  - rewrite load_fresh_sockets, load_fresh_promises, load_fresh_conns, !length_app.
    simpl. lia.
Qed.

Lemma count_if_length {A} (f : A -> bool) (l : list A) : count_if f l <= length l.
Proof. induction l as [|x l IH]; simpl; [lia | destruct (f x); lia]. Qed.

(** C1, as the code has it: in every state reached from the initial one
    without [clearQuery], a path has at most one socket that is not closed
    (so at most one that is open); and any number of [load] calls in a row
    does what the first of them does, which creates at most one socket, one
    handle and one subscriber list. *)
Theorem one_connection_without_clearQuery (trace : list Event) path (n : nat) st :
  forallb (fun e => negb (is_clearQuery e)) trace = true ->
  live_connections (run trace init) path <= 1 /\
  open_connections (run trace init) path <= 1 /\
  Nat.iter (S n) (load path) st = load path st /\
  length (sockets (load path st)) <= S (length (sockets st)) /\
  length (promises (load path st)) <= S (length (promises st)) /\
  pending_handles (Nat.iter n (load path) init) path <= 1.
Proof.
  intros Ht.
  pose proof (run_single_connection trace init Ht init_single_connection path) as [H1 _].
  pose proof (open_le_live (run trace init) path).
  destruct (load_lengths path st) as (Hs & Hp & _).
  repeat split; try lia.
  - apply load_iter.
  - unfold pending_handles.
    etransitivity; [apply count_if_length|].
    destruct n as [|n]; [simpl; lia|].
    rewrite load_iter. destruct (load_lengths path init) as (_ & _ & Hc). exact Hc.
Qed.

Lemma count_if_lookup {A} (f : A -> bool) (l : list A) i x :
  l !! i = Some x -> f x = true -> 1 <= count_if f l.
Proof.
  revert i. induction l as [|y l IH]; intros [|i]; simpl; try discriminate.
  - intros [= ->] ->. lia.
  - intros Hi Hf. specialize (IH i Hi Hf). lia.
Qed.

(** With at most one connection per path, no frame reaches a stale entry. *)
Lemma single_connection_no_message_for_stale (e : Event) st :
  single_connection st -> message_for_stale st e = false.
Proof.
  intros H. destruct e; try reflexivity. simpl.
  destruct (sockets st !! ws) as [w|] eqn:Hs; [|reflexivity].
  destruct (readyState w) eqn:Hr; try reflexivity.
  destruct (queryCache st !! ws_path w) as [query|] eqn:Hq; [|reflexivity].
  destruct (H (ws_path w)) as [_ H2].
  destruct H2 as (q & Hq' & Hl).
  - assert (1 <= live_connections st (ws_path w)); [|lia].
    eapply count_if_lookup; [exact Hs|].
    unfold socket_live. now rewrite String.eqb_refl, Hr.
  - congruence.
Qed.

(** Stale implies cleared in every state reached without [clearQuery]. *)
Lemma stale_implies_cleared_without_clearQuery (trace : list Event) :
  forallb (fun e => negb (is_clearQuery e)) trace = true ->
  stale_implies_cleared (run trace init).
Proof.
  assert (Hgo : forall st,
    forallb (fun e => negb (is_clearQuery e)) trace = true ->
    single_connection st -> stale_implies_cleared st ->
    stale_implies_cleared (run trace st)).
  { induction trace as [|e trace IH]; intros st Ht H1 H2; [exact H2|].
    simpl in Ht. apply andb_prop in Ht as [He Ht]. simpl. apply IH; [exact Ht| |].
    - apply step_single_connection; [now destruct (is_clearQuery e) | exact H1].
    - apply step_stale_implies_cleared; [exact H2|].
      now apply single_connection_no_message_for_stale. }
  intros Ht. apply Hgo; [exact Ht | apply init_single_connection |].
  intros p q. simpl. now rewrite lookup_empty.
Qed.

(** C2, as the code has it: every step keeps "stale implies cleared", except
    the delivery of a frame on an open socket of a path whose entry is stale;
    and the property holds in every state reached from the initial one
    without [clearQuery]. *)
Theorem stale_implies_cleared_is_kept (trace : list Event) (e : Event) st :
  stale_implies_cleared st ->
  message_for_stale st e = false ->
  forallb (fun e' => negb (is_clearQuery e')) trace = true ->
  stale_implies_cleared (step e st) /\ stale_implies_cleared (run trace init).
Proof.
  intros H Hm Ht. split.
  - now apply step_stale_implies_cleared.
  - now apply stale_implies_cleared_without_clearQuery.
Qed.

(** *** Cached paths have an entry *)

Lemma loaded_insert path (q : QueryEntry) (m : gmap string QueryEntry) p :
  is_Some (m !! p) -> is_Some (<[path := q]> m !! p).
Proof.
  destruct (decide (path = p)) as [->|Hne].
  - rewrite lookup_insert_eq. eauto.
  - now rewrite lookup_insert_ne.
Qed.

Lemma load_loaded path st p : loaded st p -> loaded (load path st) p.
Proof.
  intros H. unfold load, loaded.
  destruct (queryCache st !! path) as [query|].
  - destruct (lazilyRefetch query); simpl; [|exact H].
    rewrite load_fresh_queryCache. simpl. now apply loaded_insert, loaded_insert.
  - rewrite load_fresh_queryCache. now apply loaded_insert.
Qed.

Lemma lookup_alter_path (f : WebSocket -> WebSocket) i j (l : list WebSocket) w' :
  (forall x, ws_path (f x) = ws_path x) ->
  alter f i l !! j = Some w' ->
  exists w, l !! j = Some w /\ ws_path w = ws_path w'.
Proof.
  intros Hf. destruct (decide (i = j)) as [->|Hne].
  - rewrite list_lookup_alter_eq. destruct (l !! j) as [w|]; [|discriminate].
    intros [= <-]. eauto.
  - rewrite list_lookup_alter_ne by done. eauto.
Qed.

Lemma ws_path_WebSocket_close w : ws_path (WebSocket_close w) = ws_path w.
Proof. unfold WebSocket_close. now destruct (readyState w). Qed.

(** The four ways a step can keep the property. *)
Lemma cached_paths_loaded_step st st' :
  (forall p, loaded st p -> loaded st' p) ->
  (forall i w', sockets st' !! i = Some w' ->
     loaded st' (ws_path w') \/
     exists j w, sockets st !! j = Some w /\ ws_path w = ws_path w') ->
  (forall t ws conn p url, In t (timers st') -> action t = Reconnect ws conn p url ->
     In t (timers st) \/ loaded st' p) ->
  (forall p v, valueCache st' !! p = Some v ->
     is_Some (valueCache st !! p) \/ loaded st' p) ->
  cached_paths_loaded st -> cached_paths_loaded st'.
Proof.
  intros Hq Hs Ht Hv (K1 & K2 & K3). repeat split.
  - intros i w' Hi. destruct (Hs i w' Hi) as [H|(j & w & Hj & <-)]; [exact H|].
    eapply Hq, K1, Hj.
  - intros t ws conn p url Hin Ha. destruct (Ht t ws conn p url Hin Ha) as [H|H]; [|exact H].
    eapply Hq, K2; eauto.
  - intros p v Hp. destruct (Hv p v Hp) as [[v' H]|H]; [|exact H].
    eapply Hq, K3, H.
Qed.

Lemma load_cached_paths_loaded path st :
  cached_paths_loaded st -> cached_paths_loaded (load path st).
Proof.
  apply cached_paths_loaded_step.
  - intros p. apply load_loaded.
  - intros i w'. unfold load. destruct (queryCache st !! path) as [query|].
    + destruct (lazilyRefetch query); simpl; [|eauto].
      rewrite load_fresh_sockets. simpl. intros [H|[_ H]]%lookup_app_Some; [eauto|].
      apply list_lookup_singleton_Some in H as [_ <-]. left. simpl.
      unfold loaded. rewrite load_fresh_queryCache, lookup_insert_eq. eauto.
    + rewrite load_fresh_sockets. intros [H|[_ H]]%lookup_app_Some; [eauto|].
      apply list_lookup_singleton_Some in H as [_ <-]. left. simpl.
      unfold loaded. rewrite load_fresh_queryCache, lookup_insert_eq. eauto.
  - intros t ws conn p url. rewrite load_timers. auto.
  - intros p v. rewrite load_valueCache. eauto.
Qed.

Lemma step_cached_paths_loaded (e : Event) st :
  cached_paths_loaded st -> cached_paths_loaded (step e st).
Proof.
  intros K. destruct e; simpl.
  - now apply load_cached_paths_loaded.
  - rewrite read_state. destruct (queryCache st !! path) as [query|]; [|exact K].
    destruct (lazilyRefetch query); [now apply load_cached_paths_loaded | exact K].
  - destruct (subscribe_frame path listener st) as (Hv & Hq & Hs & Ht).
    revert K. apply cached_paths_loaded_step; unfold loaded; rewrite ?Hv, ?Hq, ?Hs, ?Ht; eauto.
  - unfold call_unsubscribe. destruct (handed_out conn listener st); [|exact K].
    destruct (conns st !! conn) as [c|] eqn:Hc; [|unfold unsubscribe; now rewrite Hc].
    destruct (unsubscribe_unfold conn listener c st Hc) as (_ & Ht & Hs & Hq & Hv & _).
    revert K. apply cached_paths_loaded_step; unfold loaded; rewrite ?Hv, ?Hq, ?Hs; eauto.
    intros t ws cn p url. rewrite Ht. intros [Hin|Hin]%in_app_or Ha.
    + left. destruct (cleanupTimeoutId c); simpl in Hin; [|exact Hin].
      now apply List.filter_In in Hin as [Hin _].
    + destruct Hin as [<-|[]]. discriminate Ha.
  - revert K. apply cached_paths_loaded_step.
    + intros p. unfold loaded, clearQuery. destruct (queryCache st !! path); simpl; [|auto].
      apply loaded_insert.
    + intros i w'. unfold clearQuery. destruct (queryCache st !! path); simpl; eauto.
    + intros t ws conn p url. unfold clearQuery. destruct (queryCache st !! path); simpl; auto.
    + intros p v. unfold clearQuery. destruct (queryCache st !! path); simpl;
        (destruct (decide (path = p)) as [->|Hne];
         [now rewrite lookup_delete_eq | rewrite lookup_delete_ne by done; eauto]).
  - destruct (deliver_open_frame ws st) as (Hv & Hq & Ht).
    revert K. apply cached_paths_loaded_step; unfold loaded; rewrite ?Hv, ?Hq, ?Ht; eauto.
    intros i w'. unfold deliver_open. destruct (sockets st !! ws) as [w|] eqn:Hs; [|eauto].
    destruct (readyState w); eauto.
    unfold on_open. simpl. rewrite list_lookup_alter_eq, Hs. simpl.
    intros (w1 & (w2 & H2 & <-)%lookup_alter_path & <-)%lookup_alter_path; eauto.
  - unfold deliver_message. destruct (sockets st !! ws) as [w|] eqn:Hs; [|exact K].
    destruct (readyState w); try exact K. unfold on_message. rewrite Hs.
    destruct (onMessage_frame (ws_conn w) (ws_path w) parsed st) as (Hv & Hq & Hs' & Ht).
    pose proof K as (K1 & _).
    revert K. apply cached_paths_loaded_step; unfold loaded; rewrite ?Hv, ?Hq, ?Hs', ?Ht; eauto.
    intros p v. destruct (decide (ws_path w = p)) as [<-|Hne].
    + intros _. right. eapply K1, Hs.
    + rewrite lookup_insert_ne by done. eauto.
  - destruct (deliver_error_frame ws st) as (Hv & Hq & Hs & Ht).
    revert K. apply cached_paths_loaded_step; unfold loaded; rewrite ?Hv, ?Hq, ?Hs, ?Ht; eauto.
  - destruct (sockets st !! ws) as [w|] eqn:Hs;
      [|unfold deliver_close; rewrite Hs; exact K].
    destruct (is_CLOSED (readyState w)) eqn:Hc;
      [unfold deliver_close; rewrite Hs, Hc; exact K|].
    rewrite (deliver_close_unfold ws w code st Hs Hc). simpl.
    pose proof K as (K1 & _). specialize (K1 ws w Hs).
    destruct (code =? 1006)%Z; simpl.
    + revert K. apply cached_paths_loaded_step; simpl; eauto.
      * intros i w' (w0 & H0 & <-)%lookup_alter_path; eauto.
      * intros t ws' conn p url [Hin|Hin]%in_app_or Ha; [auto|].
        destruct Hin as [<-|[]]. simpl in Ha. injection Ha as <- <- <- <-. now right.
    + revert K. apply cached_paths_loaded_step.
      * intros p. unfold loaded, onClose. simpl.
        destruct (queryCache st !! ws_path w); simpl; [|auto]. apply loaded_insert.
      * intros i w'. unfold onClose. simpl.
        destruct (queryCache st !! ws_path w); simpl;
          intros (w0 & H0 & <-)%lookup_alter_path; eauto.
      * intros t ws' conn p url. unfold onClose. simpl.
        destruct (queryCache st !! ws_path w); simpl; auto.
      * intros p v. unfold onClose. simpl.
        destruct (queryCache st !! ws_path w); simpl; [|eauto].
        destruct (decide (ws_path w = p)) as [->|Hne];
          [now rewrite lookup_delete_eq | rewrite lookup_delete_ne by done; eauto].
  - destruct (timer_fires_frame id st) as (Hv & Hq).
    pose proof K as (_ & K2 & _).
    revert K. apply cached_paths_loaded_step; unfold loaded; rewrite ?Hv, ?Hq; eauto.
    + intros i w'. unfold timer_fires.
      destruct (List.find (has_id id) (timers st)) as [t|] eqn:Hf; [|eauto].
      apply List.find_some in Hf as [Hin _].
      destruct (action t) as [ws conn p url|conn] eqn:Ha; simpl.
      * unfold reconnect_callback. simpl. destruct (sockets st !! ws) as [w|]; [|eauto].
        destruct (is_CLOSED (readyState w)); simpl; [|eauto].
        intros [H|[_ H]]%lookup_app_Some; [eauto|].
        apply list_lookup_singleton_Some in H as [_ <-]. left. simpl.
        eapply K2; eauto.
      * unfold cleanup_callback. simpl. destruct (conns st !! conn) as [c|]; [|eauto].
        destruct (length (subscriptions c) =? 0); simpl; [|eauto].
        intros (w0 & H0 & <-)%lookup_alter_path; eauto using ws_path_WebSocket_close.
    + intros t ws conn p url Hin Ha. left.
      destruct (timer_fires_timers id st) as [H|H]; rewrite H in Hin; [|exact Hin].
      now apply List.filter_In in Hin as [Hin _].
Qed.

Lemma run_cached_paths_loaded (trace : list Event) :
  cached_paths_loaded (run trace init).
Proof.
  assert (Hgo : forall st, cached_paths_loaded st -> cached_paths_loaded (run trace st)).
  { induction trace as [|e trace IH]; intros st K; [exact K|].
    simpl. now apply IH, step_cached_paths_loaded. }
  apply Hgo. repeat split.
  - intros i w. simpl. now rewrite lookup_nil.
  - intros t ws conn path url [].
  - intros path value. simpl. now rewrite lookup_empty.
Qed.

(** How a template literal prints the decoded values. *)
Lemma ToString_values :
  (forall s, ToString (JStr s) = Some s) /\
  (forall x, ToString (JNum x) = Some (NumberToString x)) /\
  ToString JNull = Some "null" /\
  ToString (JBool true) = Some "true" /\
  ToString (JBool false) = Some "false" /\
  ToString (JArr [JStr "a"; JNull; JArr [JStr "b"; JStr "c"]]) = Some "a,,b,c" /\
  (forall fs, get_property "toString" fs = None ->
              ToString (JObj fs) = Some "[object Object]") /\
  (forall fs v, get_property "toString" fs = Some v -> ToString (JObj fs) = None).
Proof.
  repeat split; try reflexivity.
  - intros fs H. simpl. now rewrite H.
  - intros fs v H. simpl. now rewrite H.
Qed.

(** C7, as the code has it: in every state the program reaches, when the
    value cached for the path is an object with an [error] property, the path
    decodes and the detail prints, [read] throws an error whose message is
    built from the decoded path and the printed detail (a string detail is in
    it as it is); when the path does not decode it throws the [URIError] of
    [decodeURIComponent], and when the detail does not print the [TypeError]
    of the template literal. Any other truthy cached value is returned. *)
Theorem read_surfaces_error_payload (trace : list Event) path value (suspend : bool) :
  let st := run trace init in
  valueCache st !! path = Some value ->
  truthy value = true ->
  (forall detail,
     error_in value = Some detail ->
     (forall decoded text,
        decodeURIComponent path = Some decoded ->
        ToString detail = Some text ->
        (read path suspend st).1 =
          Throw (Error ("Error reading " +:+ dquote +:+ decoded +:+ dquote +:+
                        " - [" +:+ text +:+ "]")) /\
        includes decoded (read_error_message decoded text) /\
        includes text (read_error_message decoded text)) /\
     (forall decoded s,
        decodeURIComponent path = Some decoded ->
        detail = JStr s ->
        (read path suspend st).1 =
          Throw (Error ("Error reading " +:+ dquote +:+ decoded +:+ dquote +:+
                        " - [" +:+ s +:+ "]"))) /\
     (decodeURIComponent path = None ->
      (read path suspend st).1 = Throw URIError) /\
     (forall decoded,
        decodeURIComponent path = Some decoded ->
        ToString detail = None ->
        (read path suspend st).1 = Throw TypeError)) /\
  (error_in value = None -> (read path suspend st).1 = Return value).
Proof.
  intros st Hv Ht.
  destruct (run_cached_paths_loaded trace) as (_ & _ & K3).
  destruct (K3 path value Hv) as [query Hq]. fold st in Hq.
  assert (E : valueCache (if lazilyRefetch query then load path st else st) !! path
              = Some value).
  { destruct (lazilyRefetch query); [now rewrite load_valueCache | exact Hv]. }
  split.
  - intros detail He.
    assert (Ho : typeof_object value = true)
      by (destruct value; simpl in He; try discriminate; reflexivity).
    assert (R : (read path suspend st).1 =
                match decodeURIComponent path with
                | Some decoded =>
                    match ToString detail with
                    | Some text => Throw (Error (read_error_message decoded text))
                    | None => Throw TypeError
                    end
                | None => Throw URIError
                end).
    { unfold read. rewrite Hq, E, Ht, Ho, He.
      destruct (decodeURIComponent path); [|reflexivity].
      destruct (ToString detail); reflexivity. }
    rewrite R. split; [|split; [|split]].
    + intros decoded text Hd Hs. rewrite Hd, Hs.
      split; [reflexivity | apply read_error_message_includes].
    + intros decoded s Hd ->. now rewrite Hd.
    + now intros ->.
    + intros decoded Hd Hn. now rewrite Hd, Hn.
  - intros He. unfold read. rewrite Hq, E, Ht, He.
    now destruct (typeof_object value).
Qed.

(** ** Further properties of the code *)

(** *** Which listener an unsubscribe removes *)

Lemma indexOf_absent x l : ~ In x l -> indexOf x l = None.
Proof.
  induction l as [|y l IH]; simpl; [reflexivity|]. intros H.
  destruct (Nat.eqb y x) eqn:E.
  - apply Nat.eqb_eq in E. tauto.
  - rewrite IH by tauto. reflexivity.
Qed.

Lemma indexOf_present x l : In x l -> exists i, indexOf x l = Some i.
Proof.
  induction l as [|y l IH]; simpl; [tauto|]. intros H.
  destruct (Nat.eqb y x) eqn:E; [eauto|].
  apply Nat.eqb_neq in E. destruct IH as [i Hi]; [tauto|].
  rewrite Hi. simpl. eauto.
Qed.

Lemma splice1_present x l : In x l -> splice1 (indexOf x l) l = remove_first x l.
Proof.
  induction l as [|y l IH]; simpl; [tauto|]. intros H.
  destruct (Nat.eqb y x) eqn:E; [reflexivity|].
  apply Nat.eqb_neq in E. assert (Hin : In x l) by tauto.
  specialize (IH Hin). destruct (indexOf_present x l Hin) as [i Hi].
  rewrite Hi in *. simpl in *. now rewrite IH.
Qed.

Lemma splice1_absent x l : ~ In x l -> splice1 (indexOf x l) l = removelast l.
Proof.
  intros H. rewrite (indexOf_absent x l H). unfold splice1.
  now rewrite removelast_firstn_len, Nat.sub_1_r.
Qed.

Lemma remove_first_Permutation x l : In x l -> Permutation l (x :: remove_first x l).
Proof.
  induction l as [|y l IH]; simpl; [tauto|]. intros H.
  destruct (Nat.eqb y x) eqn:E.
  - apply Nat.eqb_eq in E. now subst.
  - apply Nat.eqb_neq in E. rewrite perm_swap. constructor. apply IH. tauto.
Qed.

Lemma splice1_length x l : length (splice1 (indexOf x l) l) = length l - 1.
Proof.
  destruct (in_dec Nat.eq_dec x l) as [Hin|Hn].
  - rewrite (splice1_present x l Hin).
    pose proof (Permutation_length (remove_first_Permutation x l Hin)) as Hl.
    simpl in Hl. lia.
  - rewrite (indexOf_absent x l Hn). unfold splice1. rewrite length_take. lia.
Qed.

(** The unsubscribe closure always takes one listener out of a list that is
    not empty: the first occurrence of its own listener when that is in the
    list (the others keep their order), and otherwise the last listener of
    the list. *)
Theorem unsubscribe_removes_one_listener conn (listener : nat) c st :
  conns st !! conn = Some c ->
  exists c',
    conns (unsubscribe conn listener st) !! conn = Some c' /\
    length (subscriptions c') = length (subscriptions c) - 1 /\
    (In listener (subscriptions c) ->
     subscriptions c' = remove_first listener (subscriptions c) /\
     Permutation (subscriptions c) (listener :: subscriptions c')) /\
    (~ In listener (subscriptions c) ->
     subscriptions c' = removelast (subscriptions c)).
Proof.
  intros Hc. destruct (unsubscribe_unfold conn listener c st Hc) as (Hconns & _).
  rewrite Hconns, !list_lookup_alter_eq, Hc. simpl.
  eexists. split; [reflexivity|]. simpl. split; [apply splice1_length|]. split.
  - intros Hin. rewrite splice1_present by exact Hin.
    split; [reflexivity | now apply remove_first_Permutation].
  - intros Hn. now apply splice1_absent.
Qed.

(** *** clearQuery *)

Lemma clearQuery_loaded path st p : loaded (clearQuery path st) p <-> loaded st p.
Proof.
  unfold loaded, clearQuery. destruct (queryCache st !! path) as [query|] eqn:E; simpl;
    [|reflexivity].
  destruct (decide (path = p)) as [->|Hne].
  - rewrite lookup_insert_eq, E. split; intros _; eexists; reflexivity.
  - now rewrite lookup_insert_ne.
Qed.

(** Clearing a path twice is clearing it once, and clearing never creates or
    removes an entry. *)
Theorem clearQuery_idempotent path st p :
  clearQuery path (clearQuery path st) = clearQuery path st /\
  (loaded (clearQuery path st) p <-> loaded st p).
Proof.
  split; [|apply clearQuery_loaded].
  unfold clearQuery. destruct (queryCache st !! path) as [query|] eqn:E; simpl.
  - rewrite lookup_insert_eq. unfold set_queryCache, set_valueCache. simpl.
    now rewrite insert_insert_eq, delete_delete_eq.
  - rewrite E. unfold set_valueCache. simpl. now rewrite delete_delete_eq.
Qed.

(** *** Paths do not interfere *)

Lemma load_queryCache_other path st p :
  path <> p -> queryCache (load path st) !! p = queryCache st !! p.
Proof.
  intros Hne. unfold load. destruct (queryCache st !! path) as [query|].
  - destruct (lazilyRefetch query); simpl; [|reflexivity].
    rewrite load_fresh_queryCache. simpl. now rewrite !lookup_insert_ne.
  - rewrite load_fresh_queryCache. now rewrite lookup_insert_ne.
Qed.

Lemma step_entries_of_other_path (e : Event) st p :
  event_path st e <> Some p ->
  valueCache (step e st) !! p = valueCache st !! p /\
  queryCache (step e st) !! p = queryCache st !! p.
Proof.
  intros Hp. destruct e; simpl in *.
  - assert (path <> p) by congruence.
    now rewrite load_valueCache, load_queryCache_other.
  - assert (path <> p) by congruence. rewrite read_state.
    destruct (queryCache st !! path) as [query|]; [|auto].
    destruct (lazilyRefetch query); [|auto].
    now rewrite load_valueCache, load_queryCache_other.
  - destruct (subscribe_frame path listener st) as (-> & -> & _). auto.
  - destruct (call_unsubscribe_frame conn listener st) as (-> & -> & _). auto.
  - assert (path <> p) by congruence. unfold clearQuery.
    destruct (queryCache st !! path); simpl;
      rewrite ?lookup_delete_ne, ?lookup_insert_ne by done; auto.
  - destruct (deliver_open_frame ws st) as (-> & -> & _). auto.
  - unfold deliver_message. destruct (sockets st !! ws) as [w|] eqn:Hs; [|auto].
    destruct (readyState w); auto. unfold on_message. rewrite Hs.
    destruct (onMessage_frame (ws_conn w) (ws_path w) parsed st) as (-> & -> & _).
    assert (ws_path w <> p) by (simpl in Hp; congruence).
    now rewrite lookup_insert_ne.
  - destruct (deliver_error_frame ws st) as (-> & -> & _). auto.
  - destruct (sockets st !! ws) as [w|] eqn:Hs;
      [|unfold deliver_close; rewrite Hs; auto].
    destruct (is_CLOSED (readyState w)) eqn:Hc;
      [unfold deliver_close; rewrite Hs, Hc; auto|].
    rewrite (deliver_close_unfold ws w code st Hs Hc). simpl.
    destruct (code =? 1006)%Z; [auto|].
    assert (ws_path w <> p) by (simpl in Hp; congruence).
    unfold onClose. simpl. destruct (queryCache st !! ws_path w); simpl;
      rewrite ?lookup_delete_ne, ?lookup_insert_ne by done; auto.
  - destruct (timer_fires_frame id st) as (-> & ->). auto.
Qed.

(** A step writes the cache entries of its own path only: the value, the
    entry and what [read] would find of any other path are as before. *)
Theorem step_keeps_other_paths (e : Event) st p :
  event_path st e <> Some p ->
  valueCache (step e st) !! p = valueCache st !! p /\
  queryCache (step e st) !! p = queryCache st !! p /\
  (loaded (step e st) p <-> loaded st p).
Proof.
  intros Hp. destruct (step_entries_of_other_path e st p Hp) as [Hv Hq].
  unfold loaded. now rewrite Hv, Hq.
Qed.

(** *** What [read] returns depends on the two entries of its path *)

Lemma read_completion_by_entries path suspend st st' :
  valueCache st !! path = valueCache st' !! path ->
  queryCache st !! path = queryCache st' !! path ->
  (read path suspend st).1 = (read path suspend st').1.
Proof.
  intros Hv Hq. unfold read. rewrite <- Hq.
  destruct (queryCache st !! path) as [query|]; [|reflexivity].
  assert (E : valueCache (if lazilyRefetch query then load path st else st) !! path =
              valueCache (if lazilyRefetch query then load path st' else st') !! path).
  { destruct (lazilyRefetch query); [now rewrite !load_valueCache | exact Hv]. }
  rewrite <- E.
  destruct (valueCache (if lazilyRefetch query then load path st else st) !! path)
    as [value|]; [|destruct suspend; reflexivity].
  destruct (truthy value); [|destruct suspend; reflexivity].
  destruct (if typeof_object value then error_in value else None) as [detail|];
    [|reflexivity].
  destruct (decodeURIComponent path); [|reflexivity].
  destruct (ToString detail); reflexivity.
Qed.

Lemma cache_neutral_frame (e : Event) st :
  cache_neutral e = true ->
  valueCache (step e st) = valueCache st /\ queryCache (step e st) = queryCache st.
Proof.
  intros He. destruct e; simpl in *; try discriminate.
  - destruct (subscribe_frame path listener st) as (-> & -> & _). auto.
  - destruct (call_unsubscribe_frame conn listener st) as (-> & -> & _). auto.
  - destruct (deliver_open_frame ws st) as (-> & -> & _). auto.
  - destruct (deliver_error_frame ws st) as (-> & -> & _). auto.
  - destruct (sockets st !! ws) as [w|] eqn:Hs;
      [|unfold deliver_close; rewrite Hs; auto].
    destruct (is_CLOSED (readyState w)) eqn:Hc;
      [unfold deliver_close; rewrite Hs, Hc; auto|].
    rewrite (deliver_close_unfold ws w code st Hs Hc). simpl. now rewrite He.
  - destruct (timer_fires_frame id st) as (-> & ->). auto.
Qed.

(** What [read] returns for a path is not changed by a subscribe or an
    unsubscribe, by an open or an error event, by a timer, by a closure with
    code 1006, or by any step that concerns another path. *)
Theorem read_is_unaffected (e : Event) path (suspend : bool) st :
  cache_neutral e = true \/ event_path st e <> Some path ->
  (read path suspend (step e st)).1 = (read path suspend st).1.
Proof.
  intros [He|Hp]; apply read_completion_by_entries.
  - now destruct (cache_neutral_frame e st He) as [-> _].
  - now destruct (cache_neutral_frame e st He) as [_ ->].
  - now destruct (step_entries_of_other_path e st path Hp) as [-> _].
  - now destruct (step_entries_of_other_path e st path Hp) as [_ ->].
Qed.

(** *** Entries are never removed *)

Lemma step_loaded (e : Event) st p : loaded st p -> loaded (step e st) p.
Proof.
  intros H. destruct e; simpl.
  - now apply load_loaded.
  - rewrite read_state. destruct (queryCache st !! path) as [query|]; [|exact H].
    destruct (lazilyRefetch query); [now apply load_loaded | exact H].
  - unfold loaded. now destruct (subscribe_frame path listener st) as (_ & -> & _).
  - unfold loaded. now destruct (call_unsubscribe_frame conn listener st) as (_ & -> & _).
  - now apply clearQuery_loaded.
  - unfold loaded. now destruct (deliver_open_frame ws st) as (_ & -> & _).
  - unfold deliver_message. destruct (sockets st !! ws) as [w|] eqn:Hs; [|exact H].
    destruct (readyState w); try exact H. unfold on_message. rewrite Hs. unfold loaded.
    now destruct (onMessage_frame (ws_conn w) (ws_path w) parsed st) as (_ & -> & _).
  - unfold loaded. now destruct (deliver_error_frame ws st) as (_ & -> & _).
  - destruct (sockets st !! ws) as [w|] eqn:Hs;
      [|unfold deliver_close; rewrite Hs; exact H].
    destruct (is_CLOSED (readyState w)) eqn:Hc;
      [unfold deliver_close; rewrite Hs, Hc; exact H|].
    rewrite (deliver_close_unfold ws w code st Hs Hc). simpl.
    destruct (code =? 1006)%Z; [exact H|].
    unfold loaded, onClose. simpl. destruct (queryCache st !! ws_path w); simpl; [|exact H].
    now apply loaded_insert.
  - unfold loaded. now destruct (timer_fires_frame id st) as (_ & ->).
Qed.

Lemma run_loaded (trace : list Event) st p : loaded st p -> loaded (run trace st) p.
Proof.
  revert st. induction trace as [|e trace IH]; intros st H; [exact H|].
  simpl. now apply IH, step_loaded.
Qed.

Lemma read_with_entry path suspend st :
  loaded st path -> (read path suspend st).1 <> Throw (Error (invariant_message path)).
Proof.
  intros [query Hq]. unfold read. rewrite Hq.
  destruct (valueCache _ !! path) as [value|]; [|destruct suspend; discriminate].
  destruct (truthy value); [|destruct suspend; discriminate].
  destruct (if typeof_object value then error_in value else None) as [detail|];
    [|discriminate].
  destruct (decodeURIComponent path); [|discriminate].
  destruct (ToString detail); discriminate.
Qed.

(** Once [load] has been called for a path, whatever happens afterwards,
    [read] does not throw the "call load() first" error for it. *)
Theorem read_after_load_never_needs_load (trace : list Event) path (suspend : bool) st :
  (read path suspend (run trace (load path st))).1
  <> Throw (Error (invariant_message path)).
Proof.
  apply read_with_entry, run_loaded.
  destruct (load_installs path st) as (query & Hq & _). unfold loaded. eauto.
Qed.

(** *** Frames *)

Lemma deliver_message_unfold ws w parsed st :
  sockets st !! ws = Some w ->
  readyState w = OPEN ->
  let st' := deliver_message ws parsed st in
  valueCache st' = <[ws_path w := parsed]> (valueCache st) /\
  queryCache st' = queryCache st /\
  sockets st' = sockets st /\
  conns st' = conns st /\
  timers st' = timers st /\
  notified st' =
    notified st ++ from_option subscriptions [] (conns st !! ws_conn w).
Proof.
  intros Hs Hr. unfold deliver_message. rewrite Hs, Hr. unfold on_message. rewrite Hs.
  unfold onMessage. simpl. destruct (conns st !! ws_conn w) as [c|]; simpl.
  - repeat split.
  - rewrite app_nil_r. repeat split.
Qed.

(** In every state the program reaches, a truthy frame without an [error]
    property that is delivered on an open socket is what the next [read] of
    the path of that socket returns. *)
Theorem read_after_message (trace : list Event) ws w parsed (suspend : bool) :
  let st := run trace init in
  sockets st !! ws = Some w ->
  readyState w = OPEN ->
  truthy parsed = true ->
  error_in parsed = None ->
  (read (ws_path w) suspend (deliver_message ws parsed st)).1 = Return parsed.
Proof.
  intros st Hs Hr Ht He.
  destruct (run_cached_paths_loaded trace) as (K1 & _).
  destruct (K1 ws w Hs) as [query Hq]. fold st in Hq.
  destruct (deliver_message_unfold ws w parsed st Hs Hr) as (Hv & Hq' & _).
  unfold read. rewrite Hq', Hq.
  assert (E : valueCache (if lazilyRefetch query
                          then load (ws_path w) (deliver_message ws parsed st)
                          else deliver_message ws parsed st) !! ws_path w
              = Some parsed).
  { destruct (lazilyRefetch query); rewrite ?load_valueCache, Hv;
      apply lookup_insert_eq. }
  rewrite E, Ht, He. now destruct (typeof_object parsed).
Qed.

Lemma run_app (t1 t2 : list Event) st : run (t1 ++ t2) st = run t2 (run t1 st).
Proof. unfold run. apply fold_left_app. Qed.

Lemma messages_frame ws w (frames : list JSValue) st :
  sockets st !! ws = Some w ->
  readyState w = OPEN ->
  let st' := run (EvMessage ws <$> frames) st in
  sockets st' = sockets st /\ conns st' = conns st /\
  queryCache st' = queryCache st /\
  notified st' =
    notified st ++
    concat (replicate (length frames)
              (from_option subscriptions [] (conns st !! ws_conn w))).
Proof.
  revert st. induction frames as [|v frames IH]; intros st Hs Hr st'; subst st'.
  - simpl. rewrite app_nil_r. repeat split.
  - destruct (deliver_message_unfold ws w v st Hs Hr) as (_ & Hq & Hs' & Hc & _ & Hn).
    destruct (IH (deliver_message ws v st)) as (IHs & IHc & IHq & IHn);
      [now rewrite Hs' | exact Hr |].
    change (run (EvMessage ws <$> v :: frames) st)
      with (run (EvMessage ws <$> frames) (deliver_message ws v st)).
    rewrite IHs, IHc, IHq, IHn, Hs', Hc, Hq, Hn, <- app_assoc. repeat split.
Qed.

Lemma concat_replicate_snoc {A} (n : nat) (l : list A) :
  concat (replicate n l) ++ l = concat (replicate (S n) l).
Proof.
  induction n as [|n IH]; simpl in *; [now rewrite app_nil_r|].
  now rewrite <- app_assoc, IH.
Qed.

(** Frames delivered one after another on an open socket are applied in the
    order of arrival: the cache holds the last one, and the subscribers of
    the load cycle have been called once for every frame, in the order they
    subscribed. *)
Theorem last_frame_is_cached ws w (frames : list JSValue) (last : JSValue) st :
  sockets st !! ws = Some w ->
  readyState w = OPEN ->
  let st' := run (EvMessage ws <$> (frames ++ [last])) st in
  valueCache st' !! ws_path w = Some last /\
  notified st' =
    notified st ++
    concat (replicate (S (length frames))
              (from_option subscriptions [] (conns st !! ws_conn w))).
Proof.
  intros Hs Hr st'. subst st'. rewrite fmap_app, run_app.
  destruct (messages_frame ws w frames st Hs Hr) as (Hs1 & Hc1 & _ & Hn1).
  simpl.
  destruct (deliver_message_unfold ws w last (run (EvMessage ws <$> frames) st))
    as (Hv & _ & _ & _ & _ & Hn); [now rewrite Hs1 | exact Hr |].
  rewrite Hv, Hn, Hn1, Hc1, lookup_insert_eq. split; [reflexivity|].
  rewrite <- app_assoc. f_equal. apply concat_replicate_snoc.
Qed.

(** *** The hooks *)

(** [useLazySubscription] never meets the "call load() first" error, in any
    state: it has called [load] itself. *)
Theorem useLazySubscription_needs_no_preload path st :
  (useLazySubscription path st).1 <> Throw (Error (invariant_message path)).
Proof.
  unfold useLazySubscription. apply read_with_entry.
  destruct (load_installs path st) as (query & Hq & _). unfold loaded. eauto.
Qed.

(** In every state the program reaches, for a path no [load] was called for:
    [useSubscription] after [preloadSubscription] suspends on the handle the
    preload created, which is pending. *)
Theorem useSubscription_after_preload_suspends (trace : list Event) path :
  let st := run trace init in
  queryCache st !! path = None ->
  useSubscription path (preloadSubscription path st) =
    (Throw (ThrownPromise (length (promises st))), load path st) /\
  promises (load path st) !! length (promises st) = Some Pending.
Proof.
  intros st Hq. unfold useSubscription, preloadSubscription.
  destruct (load_starts_cycle path st) as (Hq' & Hp & _).
  { intros query Hq''. congruence. }
  assert (Hv : valueCache (load path st) !! path = None).
  { rewrite load_valueCache. destruct (valueCache st !! path) as [v|] eqn:Ev; [|reflexivity].
    destruct (run_cached_paths_loaded trace) as (_ & _ & K3).
    destruct (K3 path v Ev) as [q Hq'']. fold st in Hq''. congruence. }
  split.
  - rewrite (read_without_value path true (load path st) _ Hq'); [reflexivity|].
    intros value Hv'. congruence.
  - rewrite Hp. now rewrite lookup_app_r, Nat.sub_diag by lia.
Qed.

(** *** How the sockets change *)

Lemma load_sockets_shape path st :
  sockets (load path st) = sockets st \/
  exists w', sockets (load path st) = sockets st ++ [w'] /\ socket_born st w'.
Proof.
  unfold load. destruct (queryCache st !! path) as [query|].
  - destruct (lazilyRefetch query); simpl; [|now left].
    right. rewrite load_fresh_sockets. eexists. split; [reflexivity|].
    repeat split. left. simpl. split; [|reflexivity].
    unfold resolvedOpts. now destruct opts.
  - right. rewrite load_fresh_sockets. eexists. split; [reflexivity|].
    repeat split. left. simpl. auto.
Qed.

(** One step leaves the sockets as they are, adds one, or changes one. *)
Lemma step_sockets_shape (e : Event) st :
  sockets (step e st) = sockets st \/
  (exists w', sockets (step e st) = sockets st ++ [w'] /\ socket_born st w') \/
  (exists f i, sockets (step e st) = alter f i (sockets st) /\
               forall w, sockets st !! i = Some w -> socket_evolves w (f w)).
Proof.
  destruct e; simpl.
  - destruct (load_sockets_shape path st) as [H|H]; auto.
  - rewrite read_state. destruct (queryCache st !! path) as [query|]; [|auto].
    destruct (lazilyRefetch query); [|auto].
    destruct (load_sockets_shape path st) as [H|H]; auto.
  - left. now destruct (subscribe_frame path listener st) as (_ & _ & -> & _).
  - left. now destruct (call_unsubscribe_frame conn listener st) as (_ & _ & ->).
  - left. unfold clearQuery. now destruct (queryCache st !! path).
  - unfold deliver_open. destruct (sockets st !! ws) as [w|] eqn:Hs; [|auto].
    destruct (readyState w) eqn:Hr; auto.
    right. right. exists (fun x => push_sent (ws_path w) (set_readyState OPEN x)), ws.
    split.
    + unfold on_open. simpl. rewrite list_lookup_alter_eq, Hs. simpl.
      now rewrite list_alter_alter_eq.
    + intros w0 Hw0. assert (w0 = w) by congruence. subst w0.
      right. left. auto.
  - left. unfold deliver_message. destruct (sockets st !! ws) as [w|] eqn:Hs; [|auto].
    destruct (readyState w); auto. unfold on_message. rewrite Hs.
    now destruct (onMessage_frame (ws_conn w) (ws_path w) parsed st) as (_ & _ & -> & _).
  - left. now destruct (deliver_error_frame ws st) as (_ & _ & -> & _).
  - destruct (sockets st !! ws) as [w|] eqn:Hs;
      [|unfold deliver_close; rewrite Hs; auto].
    destruct (is_CLOSED (readyState w)) eqn:Hc;
      [unfold deliver_close; rewrite Hs, Hc; auto|].
    rewrite (deliver_close_unfold ws w code st Hs Hc). simpl.
    right. right. exists (set_readyState CLOSED), ws. split.
    + destruct (code =? 1006)%Z; [reflexivity|].
      unfold onClose. simpl. now destruct (queryCache st !! ws_path w).
    + intros w0 Hw0. assert (w0 = w) by congruence. subst w0.
      right. right. right. split; [|reflexivity].
      intros E. now rewrite E in Hc.
  - unfold timer_fires. destruct (List.find (has_id id) (timers st)) as [t|] eqn:Hf; [|auto].
    apply List.find_some in Hf as [Hin _].
    destruct (action t) as [ws conn path url|conn] eqn:Ha; simpl.
    + unfold reconnect_callback. simpl. destruct (sockets st !! ws) as [w|]; [|auto].
      destruct (is_CLOSED (readyState w)); [|auto].
      right. left. eexists. split; [reflexivity|]. repeat split.
      right. exists t, ws. simpl. auto.
    + unfold cleanup_callback. simpl. destruct (conns st !! conn) as [c|]; [|auto].
      destruct (length (subscriptions c) =? 0); [|auto].
      right. right. exists WebSocket_close, (conn_ws c). split; [reflexivity|].
      intros w _. right. right. left. reflexivity.
Qed.

Lemma step_socket_old (e : Event) st i w :
  sockets st !! i = Some w ->
  exists w', sockets (step e st) !! i = Some w' /\ socket_evolves w w'.
Proof.
  intros Hi. destruct (step_sockets_shape e st) as [H|[(w' & H & _)|(f & j & H & Hf)]];
    rewrite H.
  - exists w. split; [exact Hi | now left].
  - exists w. split; [now apply lookup_app_l_Some | now left].
  - destruct (decide (j = i)) as [->|Hne].
    + rewrite list_lookup_alter_eq, Hi. simpl. eauto.
    + rewrite list_lookup_alter_ne by done. exists w. split; [exact Hi | now left].
Qed.

Lemma step_socket_new (e : Event) st i w' :
  sockets st !! i = None ->
  sockets (step e st) !! i = Some w' ->
  socket_born st w'.
Proof.
  intros Hi. destruct (step_sockets_shape e st) as [H|[(w0 & H & Hb)|(f & j & H & Hf)]];
    rewrite H.
  - congruence.
  - intros [H'|[_ H']]%lookup_app_Some; [congruence|].
    now apply list_lookup_singleton_Some in H' as [_ <-].
  - destruct (decide (j = i)) as [->|Hne].
    + rewrite list_lookup_alter_eq, Hi. discriminate.
    + rewrite list_lookup_alter_ne by done. congruence.
Qed.

Lemma step_socket (e : Event) st i w' :
  sockets (step e st) !! i = Some w' ->
  (exists w, sockets st !! i = Some w /\ socket_evolves w w') \/
  (sockets st !! i = None /\ socket_born st w').
Proof.
  intros H. destruct (sockets st !! i) as [w|] eqn:Hi.
  - left. destruct (step_socket_old e st i w Hi) as (w0 & H0 & Hev).
    exists w. split; [reflexivity|]. congruence.
  - right. split; [reflexivity|]. eapply step_socket_new; eauto.
Qed.

Lemma socket_evolves_fields w w' :
  socket_evolves w w' ->
  ws_path w' = ws_path w /\ ws_conn w' = ws_conn w /\ ws_url w' = ws_url w.
Proof.
  intros [->|[[_ ->]|[->|[_ ->]]]]; simpl; auto.
  unfold WebSocket_close. destruct (readyState w); auto.
Qed.

Lemma socket_evolves_closed w w' :
  socket_evolves w w' -> readyState w = CLOSED -> w' = w.
Proof.
  intros [->|[[Hr ->]|[->|[Hr ->]]]] Hc; try congruence.
  unfold WebSocket_close. now rewrite Hc.
Qed.

(** *** The wire *)

Lemma socket_evolves_sent w w' :
  socket_evolves w w' -> sent_is_path w -> sent_is_path w'.
Proof.
  intros Hev (H1 & H2 & H3). destruct Hev as [->|[[Hr ->]|[->|[Hr ->]]]].
  - repeat split; assumption.
  - unfold sent_is_path. simpl. rewrite (H1 Hr). simpl. repeat split; auto; discriminate.
  - unfold sent_is_path, WebSocket_close.
    destruct (readyState w) eqn:E; simpl; rewrite ?E; repeat split; auto; discriminate.
  - unfold sent_is_path. simpl. repeat split; auto; discriminate.
Qed.

Lemma run_invariant_sockets (P : WebSocket -> Prop) :
  (forall w w', socket_evolves w w' -> P w -> P w') ->
  (forall st w', socket_born st w' -> P w') ->
  forall trace i w, sockets (run trace init) !! i = Some w -> P w.
Proof.
  intros Hev Hborn trace.
  assert (Hgo : forall st, (forall i w, sockets st !! i = Some w -> P w) ->
                           forall i w, sockets (run trace st) !! i = Some w -> P w).
  { induction trace as [|e trace IH]; intros st H; [exact H|].
    simpl. apply IH. intros i w' Hi.
    destruct (step_socket e st i w' Hi) as [(w & Hw & Hevw)|[_ Hb]]; eauto. }
  apply Hgo. intros i w. simpl. now rewrite lookup_nil.
Qed.

(** In every state the program reaches, a socket has sent nothing while it
    connects, exactly its path once it is open, and never anything else. *)
Theorem only_the_path_is_sent (trace : list Event) i w :
  sockets (run trace init) !! i = Some w ->
  sent_is_path w.
Proof.
  apply (run_invariant_sockets sent_is_path).
  - apply socket_evolves_sent.
  - intros st w' (Hr & Hs & _). unfold sent_is_path. rewrite Hr, Hs.
    repeat split; auto; discriminate.
Qed.

(** *** How the timers change *)

Lemma filter_all {A} (l : list A) : List.filter (fun _ => true) l = l.
Proof. induction l as [|x l IH]; simpl; [reflexivity | now rewrite IH]. Qed.

Lemma load_timer_seq path st : timer_seq (load path st) = timer_seq st.
Proof.
  unfold load. destruct (queryCache st !! path) as [query|].
  - destruct (lazilyRefetch query); [|reflexivity].
    unfold load_fresh, resolvedOpts. now destruct opts.
  - unfold load_fresh, resolvedOpts. now destruct opts.
Qed.

Lemma timers_evolve_same (e : Event) st st' :
  timers st' = timers st -> timer_seq st' = timer_seq st -> timers_evolve e st st'.
Proof.
  intros Ht Hn. exists (fun _ => true). left. now rewrite filter_all.
Qed.

Lemma step_timers_shape (e : Event) st : timers_evolve e st (step e st).
Proof.
  pose proof (timers_evolve_same) as Hsame.
  destruct e; simpl in *.
  - apply Hsame; [apply load_timers | apply load_timer_seq].
  - apply Hsame; rewrite read_state;
      (destruct (queryCache st !! path) as [query|]; [|reflexivity]);
      (destruct (lazilyRefetch query); [|reflexivity]);
      [apply load_timers | apply load_timer_seq].
  - apply Hsame; unfold subscribe; now destruct (queryCache st !! path).
  - unfold call_unsubscribe. destruct (handed_out conn listener st); [|now apply Hsame].
    unfold unsubscribe. destruct (conns st !! conn) as [c|]; [|now apply Hsame].
    destruct (cleanupTimeoutId c) as [id|]; simpl.
    + exists (fun t => negb (has_id id t)). right. do 2 eexists.
      split; [reflexivity|]. split; [reflexivity|]. left. eauto.
    + exists (fun _ => true). right. do 2 eexists. rewrite filter_all.
      split; [reflexivity|]. split; [reflexivity|]. left. eauto.
  - apply Hsame; unfold clearQuery; now destruct (queryCache st !! path).
  - apply Hsame; [now destruct (deliver_open_frame ws st) as (_ & _ & ->)|].
    unfold deliver_open. destruct (sockets st !! ws) as [w|]; [|reflexivity].
    destruct (readyState w); try reflexivity. unfold on_open. simpl.
    now destruct (alter (set_readyState OPEN) ws (sockets st) !! ws).
  - apply Hsame; unfold deliver_message;
      (destruct (sockets st !! ws) as [w|] eqn:Hs; [|reflexivity]);
      (destruct (readyState w); try reflexivity);
      unfold on_message, onMessage; rewrite Hs; simpl;
      now destruct (conns st !! ws_conn w).
  - apply Hsame; unfold deliver_error;
      (destruct (sockets st !! ws) as [w|] eqn:Hs; [|reflexivity]);
      (destruct (is_CLOSED (readyState w)); [reflexivity|]);
      unfold on_error, onError; rewrite Hs;
      now destruct (conns st !! ws_conn w).
  - destruct (sockets st !! ws) as [w|] eqn:Hs;
      [|apply Hsame; unfold deliver_close; now rewrite Hs].
    destruct (is_CLOSED (readyState w)) eqn:Hc;
      [apply Hsame; unfold deliver_close; now rewrite Hs, Hc|].
    rewrite (deliver_close_unfold ws w code st Hs Hc) in *. simpl in *.
    destruct (code =? 1006)%Z eqn:Ecode; simpl in *.
    + apply Z.eqb_eq in Ecode. subst code.
      exists (fun _ => true). right. do 2 eexists. rewrite filter_all.
      split; [reflexivity|]. split; [reflexivity|]. right.
      exists ws, w. split; [reflexivity|]. split; [exact Hs|]. split; [|reflexivity].
      simpl. now rewrite list_lookup_alter_eq, Hs.
    + apply Hsame; unfold onClose; simpl; now destruct (queryCache st !! ws_path w).
  - unfold timer_fires. destruct (List.find (has_id id) (timers st)) as [t|];
      [|now apply Hsame].
    exists (fun t' => negb (has_id id t')). left.
    destruct (action t) as [ws conn path url|conn]; simpl.
    + unfold reconnect_callback. simpl. destruct (sockets st !! ws) as [w|]; [|auto].
      destruct (is_CLOSED (readyState w)); auto.
    + unfold cleanup_callback. simpl. destruct (conns st !! conn) as [c|]; [|auto].
      destruct (length (subscriptions c) =? 0); auto.
Qed.

(** *** Scheduled reconnections *)

Lemma step_reconnects_await_closed (e : Event) st :
  reconnects_await_closed st -> reconnects_await_closed (step e st).
Proof.
  intros H t ws conn path url Hin Ha.
  assert (Hold : In t (timers st) ->
                 exists w, sockets (step e st) !! ws = Some w /\ readyState w = CLOSED /\
                           ws_path w = path /\ ws_conn w = conn /\ ws_url w = url).
  { intros Hin'. destruct (H t ws conn path url Hin' Ha) as (w & Hw & Hc & Hf).
    destruct (step_socket_old e st ws w Hw) as (w' & Hw' & Hev).
    rewrite (socket_evolves_closed w w' Hev Hc) in Hw'. eauto. }
  destruct (step_timers_shape e st) as (keep & [[Ht _]|(a & d & Ht & _ & Hnew)]);
    rewrite Ht in Hin.
  - apply List.filter_In in Hin as [Hin _]. auto.
  - apply in_app_or in Hin as [Hin|[<-|[]]].
    + apply List.filter_In in Hin as [Hin _]. auto.
    + simpl in Ha. destruct Hnew as [(c & l & _ & ->)|(ws' & w & _ & _ & Hs' & ->)];
        [discriminate|].
      injection Ha as <- <- <- <-. eexists. split; [exact Hs'|]. simpl. auto.
Qed.

Lemma run_reconnects_await_closed (trace : list Event) :
  reconnects_await_closed (run trace init).
Proof.
  assert (Hgo : forall st, reconnects_await_closed st ->
                           reconnects_await_closed (run trace st)).
  { induction trace as [|e trace IH]; intros st H; [exact H|].
    simpl. now apply IH, step_reconnects_await_closed. }
  apply Hgo. intros t ws conn path url [].
Qed.

(** In every state the program reaches, a scheduled reconnection that fires
    is performed: the socket it waits for is closed, and one socket is
    created, for the same path and with the same URL as that socket. *)
Theorem scheduled_reconnection_is_performed (trace : list Event) t ws conn path url :
  let st := run trace init in
  List.find (has_id (timer_id t)) (timers st) = Some t ->
  action t = Reconnect ws conn path url ->
  (exists w, sockets st !! ws = Some w /\ readyState w = CLOSED /\
             ws_path w = path /\ ws_conn w = conn /\ ws_url w = url) /\
  sockets (timer_fires (timer_id t) st) =
    sockets st ++ [{| ws_url := url; ws_path := path; ws_conn := conn;
                      readyState := CONNECTING; sent := [] |}].
Proof.
  intros st Hf Ha. subst st.
  pose proof Hf as Hin. apply List.find_some in Hin as [Hin _].
  destruct (run_reconnects_await_closed trace t ws conn path url Hin Ha)
    as (w & Hw & Hc & Hfields).
  split; [eauto|].
  unfold timer_fires. rewrite Hf, Ha. simpl.
  unfold reconnect_callback. simpl. now rewrite Hw, Hc.
Qed.

(** *** The URL of a load cycle *)

Lemma load_cycles path st :
  (length (conns (load path st)) = length (conns st) /\
   opts_calls (load path st) = opts_calls st) \/
  (length (conns (load path st)) = S (length (conns st)) /\
   opts_calls (load path st) = opts_calls st + evaluations 1).
Proof.
  assert (Hf : forall st0, conns st0 = conns st -> opts_calls st0 = opts_calls st ->
    length (conns (load_fresh path st0)) = S (length (conns st)) /\
    opts_calls (load_fresh path st0) = opts_calls st + evaluations 1).
  { intros st0 Hc Ho. rewrite load_fresh_conns, length_app, Hc. simpl.
    split; [lia|]. unfold load_fresh, resolvedOpts, evaluations.
    destruct opts; simpl; lia. }
  unfold load. destruct (queryCache st !! path) as [query|].
  - destruct (lazilyRefetch query); [right; now apply Hf | now left].
  - right. now apply Hf.
Qed.

Lemma step_cycles (e : Event) st :
  (length (conns (step e st)) = length (conns st) /\
   opts_calls (step e st) = opts_calls st) \/
  (length (conns (step e st)) = S (length (conns st)) /\
   opts_calls (step e st) = opts_calls st + evaluations 1).
Proof.
  destruct e; simpl.
  - apply load_cycles.
  - rewrite read_state. destruct (queryCache st !! path) as [query|]; [|now left].
    destruct (lazilyRefetch query); [apply load_cycles | now left].
  - left. unfold subscribe. destruct (queryCache st !! path); simpl; [|auto].
    now rewrite length_alter.
  - left. unfold call_unsubscribe. destruct (handed_out conn listener st); [|auto].
    unfold unsubscribe. destruct (conns st !! conn) as [c|]; [|auto].
    destruct (cleanupTimeoutId c); simpl; now rewrite !length_alter.
  - left. unfold clearQuery. now destruct (queryCache st !! path).
  - left. unfold deliver_open. destruct (sockets st !! ws) as [w|]; [|auto].
    destruct (readyState w); auto. unfold on_open. simpl.
    now destruct (alter (set_readyState OPEN) ws (sockets st) !! ws).
  - left. unfold deliver_message. destruct (sockets st !! ws) as [w|] eqn:Hs; [|auto].
    destruct (readyState w); auto. unfold on_message, onMessage. rewrite Hs. simpl.
    now destruct (conns st !! ws_conn w).
  - left. unfold deliver_error. destruct (sockets st !! ws) as [w|] eqn:Hs; [|auto].
    destruct (is_CLOSED (readyState w)); auto. unfold on_error, onError. rewrite Hs.
    now destruct (conns st !! ws_conn w).
  - left. destruct (sockets st !! ws) as [w|] eqn:Hs;
      [|unfold deliver_close; now rewrite Hs].
    destruct (is_CLOSED (readyState w)) eqn:Hc;
      [unfold deliver_close; now rewrite Hs, Hc|].
    rewrite (deliver_close_unfold ws w code st Hs Hc). simpl.
    destruct (code =? 1006)%Z; [auto|].
    unfold onClose. simpl. now destruct (queryCache st !! ws_path w).
  - left. unfold timer_fires. destruct (List.find (has_id id) (timers st)) as [t|]; [|auto].
    destruct (action t) as [ws conn path url|conn]; simpl.
    + unfold reconnect_callback. simpl. destruct (sockets st !! ws) as [w|]; [|auto].
      destruct (is_CLOSED (readyState w)); auto.
    + unfold cleanup_callback. simpl. destruct (conns st !! conn) as [c|]; [|auto].
      destruct (length (subscriptions c) =? 0); auto.
Qed.

Lemma evaluations_S n : evaluations (S n) = evaluations n + evaluations 1.
Proof. unfold evaluations. destruct opts; lia. Qed.

Lemma resolvedOpts_url st :
  opts_calls st = evaluations (length (conns st)) ->
  (resolvedOpts st).1 = url_of_cycle (length (conns st)).
Proof.
  unfold resolvedOpts, url_of_cycle, evaluations. destruct opts; simpl; [reflexivity|].
  now intros ->.
Qed.

Lemma step_urls_by_cycle (e : Event) st :
  urls_by_cycle st -> urls_by_cycle (step e st).
Proof.
  intros (Ha & Hb & Hc). repeat split.
  - destruct (step_cycles e st) as [[-> ->]|[-> ->]]; [exact Ha|].
    now rewrite (evaluations_S (length (conns st))), Ha.
  - intros i w' Hi.
    destruct (step_socket e st i w' Hi) as [(w & Hw & Hev)|[_ (_ & _ & Hborn)]].
    + destruct (socket_evolves_fields w w' Hev) as (_ & -> & ->). eauto.
    + destruct Hborn as [[-> ->]|(t & ws & Hin & Hact)].
      * now apply resolvedOpts_url.
      * eauto.
  - intros t ws conn path url Hin Hact.
    destruct (step_timers_shape e st) as (keep & [[Ht _]|(a & d & Ht & _ & Hnew)]);
      rewrite Ht in Hin.
    + apply List.filter_In in Hin as [Hin _]. eauto.
    + apply in_app_or in Hin as [Hin|[<-|[]]].
      * apply List.filter_In in Hin as [Hin _]. eauto.
      * simpl in Hact.
        destruct Hnew as [(c & l & _ & ->)|(ws' & w & _ & Hs & _ & ->)]; [discriminate|].
        injection Hact as <- <- <- <-. eauto.
Qed.

Lemma run_urls_by_cycle (trace : list Event) : urls_by_cycle (run trace init).
Proof.
  assert (Hgo : forall st, urls_by_cycle st -> urls_by_cycle (run trace st)).
  { induction trace as [|e trace IH]; intros st H; [exact H|].
    simpl. now apply IH, step_urls_by_cycle. }
  apply Hgo. repeat split.
  - simpl. unfold evaluations. now destruct opts.
  - intros i w. simpl. now rewrite lookup_nil.
  - intros t ws conn path url [].
Qed.

(** In every state the program reaches, the [opts] callback has been
    evaluated once for every load cycle (and never when [opts] is a value),
    and every socket, reconnections included, carries the URL that was
    resolved for its load cycle. *)
Theorem opts_is_resolved_once_per_load_cycle (trace : list Event) i w :
  let st := run trace init in
  sockets st !! i = Some w ->
  opts_calls st = evaluations (length (conns st)) /\
  ws_url w = url_of_cycle (ws_conn w).
Proof.
  intros st Hi. destruct (run_urls_by_cycle trace) as (Ha & Hb & _).
  split; [exact Ha | eauto].
Qed.

(** *** Timer ids *)

Lemma step_cleanup_id (e : Event) st i c' id :
  conns (step e st) !! i = Some c' ->
  cleanupTimeoutId c' = Some id ->
  (exists c, conns st !! i = Some c /\ cleanupTimeoutId c = Some id) \/
  (id = timer_seq st /\ exists conn listener, e = EvUnsubscribe conn listener).
Proof.
  assert (Hload : forall path, conns (load path st) !! i = Some c' ->
            cleanupTimeoutId c' = Some id ->
            exists c, conns st !! i = Some c /\ cleanupTimeoutId c = Some id).
  { intros path. unfold load. destruct (queryCache st !! path) as [query|].
    - destruct (lazilyRefetch query); simpl; [|eauto].
      rewrite load_fresh_conns. simpl.
      intros [H|[_ H]]%lookup_app_Some Hid; [eauto|].
      apply list_lookup_singleton_Some in H as [_ <-]. discriminate.
    - rewrite load_fresh_conns.
      intros [H|[_ H]]%lookup_app_Some Hid; [eauto|].
      apply list_lookup_singleton_Some in H as [_ <-]. discriminate. }
  destruct e; simpl.
  - intros H1 H2. left. eauto.
  - rewrite read_state. destruct (queryCache st !! path) as [query|]; [|eauto].
    destruct (lazilyRefetch query); [|eauto]. intros H1 H2. left. eauto.
  - unfold subscribe. destruct (queryCache st !! path) as [query|]; simpl; [|eauto].
    destruct (decide (q_subscribe query = i)) as [->|Hne].
    + rewrite list_lookup_alter_eq. destruct (conns st !! i) as [c|]; [|discriminate].
      intros [= <-]. simpl. eauto.
    + rewrite list_lookup_alter_ne by done. eauto.
  - unfold call_unsubscribe. destruct (handed_out conn listener st); [|eauto].
    destruct (conns st !! conn) as [c|] eqn:Hc; [|unfold unsubscribe; rewrite Hc; eauto].
    destruct (unsubscribe_unfold conn listener c st Hc) as (-> & _).
    destruct (decide (conn = i)) as [->|Hne].
    + rewrite !list_lookup_alter_eq, Hc. intros [= <-]. simpl. intros [= <-]. eauto.
    + rewrite !list_lookup_alter_ne by done. eauto.
  - unfold clearQuery. destruct (queryCache st !! path); eauto.
  - unfold deliver_open. destruct (sockets st !! ws) as [w|]; [|eauto].
    destruct (readyState w); eauto. unfold on_open. simpl.
    destruct (alter (set_readyState OPEN) ws (sockets st) !! ws); eauto.
  - unfold deliver_message. destruct (sockets st !! ws) as [w|] eqn:Hs; [|eauto].
    destruct (readyState w); eauto.
    unfold on_message, onMessage. rewrite Hs. simpl.
    destruct (conns st !! ws_conn w); eauto.
  - unfold deliver_error. destruct (sockets st !! ws) as [w|] eqn:Hs; [|eauto].
    destruct (is_CLOSED (readyState w)); eauto. unfold on_error, onError. rewrite Hs.
    destruct (conns st !! ws_conn w); eauto.
  - destruct (sockets st !! ws) as [w|] eqn:Hs;
      [|unfold deliver_close; rewrite Hs; eauto].
    destruct (is_CLOSED (readyState w)) eqn:Hc;
      [unfold deliver_close; rewrite Hs, Hc; eauto|].
    rewrite (deliver_close_unfold ws w code st Hs Hc). simpl.
    destruct (code =? 1006)%Z; [eauto|].
    unfold onClose. simpl. destruct (queryCache st !! ws_path w); eauto.
  - unfold timer_fires. destruct (List.find (has_id id0) (timers st)) as [t|]; [|eauto].
    destruct (action t) as [ws conn path url|conn]; simpl.
    + unfold reconnect_callback. simpl. destruct (sockets st !! ws) as [w|]; [|eauto].
      destruct (is_CLOSED (readyState w)); eauto.
    + unfold cleanup_callback. simpl. destruct (conns st !! conn) as [c|]; [|eauto].
      destruct (length (subscriptions c) =? 0); eauto.
Qed.

Lemma In_ids_filter (keep : Timer -> bool) (l : list Timer) id :
  In id (timer_id <$> List.filter keep l) -> In id (timer_id <$> l).
Proof.
  induction l as [|t l IH]; simpl; [tauto|].
  destruct (keep t); simpl; tauto.
Qed.

Lemma In_ids (l : list Timer) id :
  In id (timer_id <$> l) <-> exists t, In t l /\ timer_id t = id.
Proof.
  induction l as [|t l IH]; simpl.
  - split; [tauto | intros (t & [] & _)].
  - rewrite IH. split.
    + intros [H|(t' & H1 & H2)]; eauto.
    + intros (t' & [->|H1] & H2); eauto.
Qed.

Lemma NoDup_ids_filter (keep : Timer -> bool) (l : list Timer) :
  NoDup (timer_id <$> l) -> NoDup (timer_id <$> List.filter keep l).
Proof.
  induction l as [|t l IH]; simpl; [auto|].
  intros [Hn Hd]%NoDup_cons. destruct (keep t); simpl; [|auto].
  apply NoDup_cons. split; [|auto].
  rewrite list_elem_of_In. intros Hin. apply Hn. rewrite list_elem_of_In.
  eapply In_ids_filter, Hin.
Qed.

Lemma timer_seq_mono (e : Event) st : timer_seq st <= timer_seq (step e st).
Proof.
  destruct (step_timers_shape e st) as (keep & [[_ ->]|(a & d & _ & -> & _)]); lia.
Qed.

Lemma step_timer_ids_fresh (e : Event) st :
  timer_ids_fresh st -> timer_ids_fresh (step e st).
Proof.
  intros (Hd & Hb & Hc).
  pose proof (timer_seq_mono e st) as Hmono.
  assert (Hbound : forall t, In t (timers (step e st)) ->
                             In t (timers st) \/
                             (timer_id t = timer_seq st /\
                              timer_seq (step e st) = S (timer_seq st) /\
                              ((exists conn l, e = EvUnsubscribe conn l) ->
                               is_reconnect t = false))).
  { intros t Hin.
    destruct (step_timers_shape e st) as (keep & [[Ht _]|(a & d & Ht & Hn & Hnew)]);
      rewrite Ht in Hin.
    - apply List.filter_In in Hin as [Hin _]. auto.
    - apply in_app_or in Hin as [Hin|[<-|[]]].
      + apply List.filter_In in Hin as [Hin _]. auto.
      + right. simpl. split; [reflexivity|]. split; [exact Hn|].
        intros (conn & l & ->).
        destruct Hnew as [(c' & l' & _ & ->)|(ws & w & Hcontra & _)];
          [reflexivity | discriminate]. }
  repeat split.
  - destruct (step_timers_shape e st) as (keep & [[-> _]|(a & d & -> & _ & _)]).
    + now apply NoDup_ids_filter.
    + rewrite fmap_app. apply NoDup_app. split; [now apply NoDup_ids_filter|].
      split; [|apply NoDup_singleton].
      intros id Hin%list_elem_of_In%In_ids_filter%In_ids. simpl.
      destruct Hin as (t & Hin & <-). specialize (Hb t Hin).
      rewrite list_elem_of_In. simpl. lia.
  - intros t Hin. destruct (Hbound t Hin) as [Hold|(-> & -> & _)]; [|lia].
    specialize (Hb t Hold). lia.
  - destruct (step_cleanup_id e st i c id H H0) as [(c0 & Hc0 & Hid)|(-> & Hun)].
    + destruct (Hc i c0 id Hc0 Hid) as [Hlt _]. lia.
    + destruct (step_timers_shape e st) as (keep & [[_ Hn]|(a & d & _ & -> & _)]); [|lia].
      (* the unsubscribe closure ran, so a timer was set *)
      destruct Hun as (conn & l & ->). simpl in *.
      unfold call_unsubscribe in *. destruct (handed_out conn l st).
      * destruct (conns st !! conn) as [c1|] eqn:Hc1.
        -- unfold unsubscribe in Hn. rewrite Hc1 in Hn. simpl in Hn.
           destruct (cleanupTimeoutId c1); simpl in Hn; lia.
        -- unfold unsubscribe in H. rewrite Hc1 in H.
           destruct (Hc i c (timer_seq st) H H0) as [Hlt _]. lia.
      * destruct (Hc i c (timer_seq st) H H0) as [Hlt _]. lia.
  - intros t Hin Hid.
    destruct (step_cleanup_id e st i c id H H0) as [(c0 & Hc0 & Hid0)|(-> & Hun)].
    + destruct (Hc i c0 id Hc0 Hid0) as [Hlt Hrec].
      destruct (Hbound t Hin) as [Hold|(Hnew & _)]; [eauto | lia].
    + destruct (Hbound t Hin) as [Hold|(_ & _ & Hnew)]; [|auto].
      specialize (Hb t Hold). lia.
Qed.

Lemma run_timer_ids_fresh (trace : list Event) : timer_ids_fresh (run trace init).
Proof.
  assert (Hgo : forall st, timer_ids_fresh st -> timer_ids_fresh (run trace st)).
  { induction trace as [|e trace IH]; intros st H; [exact H|].
    simpl. now apply IH, step_timer_ids_fresh. }
  apply Hgo. repeat split.
  - simpl. constructor.
  - intros t [].
  - simpl in H. now rewrite lookup_nil in H.
  - simpl in H. now rewrite lookup_nil in H.
Qed.

Lemma filter_reconnect_cleared id (l : list Timer) :
  (forall t, In t l -> timer_id t = id -> is_reconnect t = false) ->
  List.filter is_reconnect (List.filter (fun t => negb (has_id id t)) l) =
  List.filter is_reconnect l.
Proof.
  induction l as [|t l IH]; simpl; [reflexivity|]. intros H.
  rewrite <- IH by (intros t' Hin; apply H; now right).
  destruct (has_id id t) eqn:E; simpl; [|reflexivity].
  apply Nat.eqb_eq in E. now rewrite (H t (or_introl eq_refl) E).
Qed.

(** In every state the program reaches, calling an unsubscribe closure
    cancels no scheduled reconnection: the pending reconnections after it
    are those before it. *)
Theorem unsubscribe_cancels_no_reconnection (trace : list Event) conn (listener : nat) :
  let st := run trace init in
  List.filter is_reconnect (timers (unsubscribe conn listener st)) =
  List.filter is_reconnect (timers st).
Proof.
  intros st. destruct (run_timer_ids_fresh trace) as (_ & _ & Hc). fold st in Hc.
  destruct (conns st !! conn) as [c|] eqn:Hconn;
    [|unfold unsubscribe; now rewrite Hconn].
  destruct (unsubscribe_unfold conn listener c st Hconn) as (_ & -> & _).
  rewrite List.filter_app. simpl. rewrite app_nil_r.
  destruct (cleanupTimeoutId c) as [id|] eqn:Hid; simpl; [|reflexivity].
  apply filter_reconnect_cleared. intros t Hin Ht.
  destruct (Hc conn c id Hconn Hid) as [_ Hrec]. eauto.
Qed.

(** In every state the program reaches, a timer id names one pending timer:
    when it fires, that timer is gone and every other pending timer is still
    pending. *)
Theorem timer_fires_alone (trace : list Event) t t' :
  let st := run trace init in
  List.find (has_id (timer_id t)) (timers st) = Some t ->
  In t' (timers st) ->
  (In t' (timers (timer_fires (timer_id t) st)) <-> t' <> t).
Proof.
  intros st Hf Hin'. destruct (run_timer_ids_fresh trace) as (Hd & _ & _). fold st in Hd.
  pose proof Hf as Hin. apply List.find_some in Hin as [Hin _].
  assert (Ht : timers (timer_fires (timer_id t) st) =
               List.filter (fun x => negb (has_id (timer_id t) x)) (timers st)).
  { destruct (timer_fires_timers (timer_id t) st) as [H|H]; [exact H|].
    unfold timer_fires in H. rewrite Hf in H.
    unfold timer_fires. rewrite Hf.
    destruct (action t) as [ws conn path url|conn]; simpl.
    - unfold reconnect_callback. simpl. destruct (sockets st !! ws) as [w|]; [|reflexivity].
      destruct (is_CLOSED (readyState w)); reflexivity.
    - unfold cleanup_callback. simpl. destruct (conns st !! conn) as [c|]; [|reflexivity].
      destruct (length (subscriptions c) =? 0); reflexivity. }
  rewrite Ht, List.filter_In. unfold has_id. rewrite negb_true_iff, Nat.eqb_neq.
  split.
  - intros [_ Hne] ->. now apply Hne.
  - intros Hne. split; [exact Hin'|]. intros Hid. apply Hne.
    (* two pending timers with one id are one timer *)
    clear Ht Hf. revert Hd Hin Hin' Hid. generalize (timers st) as l.
    induction l as [|x l IH]; simpl; [tauto|].
    intros [Hn Hd]%NoDup_cons [->|Hin] [->|Hin'] Hid; auto.
    + exfalso. apply Hn. rewrite list_elem_of_In. apply In_ids. eauto.
    + exfalso. apply Hn. rewrite list_elem_of_In. apply In_ids. eauto.
Qed.

(** *** A connection lives under an entry that is not stale *)

(** In every state reached without [clearQuery]: a path has at most one of a
    socket that is not closed and a scheduled reconnection, and it has
    neither when its entry is missing or stale. *)
Theorem no_connection_under_stale_entry (trace : list Event) path :
  forallb (fun e => negb (is_clearQuery e)) trace = true ->
  let st := run trace init in
  live_connections st path + pending_reconnects st path <= 1 /\
  ((forall query, queryCache st !! path = Some query -> lazilyRefetch query = true) ->
   live_connections st path = 0 /\ pending_reconnects st path = 0).
Proof.
  intros Ht st.
  destruct (run_single_connection trace init Ht init_single_connection path) as [H1 H2].
  fold st in H1, H2. split; [exact H1|]. intros Hstale.
  destruct (live_connections st path + pending_reconnects st path) as [|n] eqn:E; [lia|].
  destruct H2 as (q & Hq & Hl); [lia|]. rewrite (Hstale q Hq) in Hl. discriminate.
Qed.

(** *** One round of reconnection *)

Lemma find_fresh id (x : Timer) (l : list Timer) :
  (forall t, In t l -> timer_id t < id) ->
  timer_id x = id ->
  List.find (has_id id) (l ++ [x]) = Some x /\
  List.filter (fun t => negb (has_id id t)) (l ++ [x]) = l.
Proof.
  intros Hl Hx. induction l as [|t l IH]; simpl.
  - unfold has_id. rewrite Hx, Nat.eqb_refl. auto.
  - assert (Ht : has_id id t = false).
    { unfold has_id. apply Nat.eqb_neq. specialize (Hl t (or_introl eq_refl)). lia. }
    rewrite Ht. simpl. destruct IH as [-> ->]; [|auto].
    intros t' Hin. apply Hl. now right.
Qed.

(** In every state the program reaches: the closure of a socket with code
    1006, followed by the timer it set, closes that socket and opens one new
    socket for the same path, URL and load cycle; both caches and the other
    timers are as before. *)
Theorem abnormal_closure_reconnects (trace : list Event) ws w :
  let st := run trace init in
  sockets st !! ws = Some w ->
  is_CLOSED (readyState w) = false ->
  let st' := run [EvClose ws 1006; EvTimeout (timer_seq st)] st in
  sockets st' =
    alter (set_readyState CLOSED) ws (sockets st) ++
    [{| ws_url := ws_url w; ws_path := ws_path w; ws_conn := ws_conn w;
        readyState := CONNECTING; sent := [] |}] /\
  timers st' = timers st /\
  valueCache st' = valueCache st /\
  queryCache st' = queryCache st.
Proof.
  intros st Hs Hc st'. subst st'.
  destruct (run_timer_ids_fresh trace) as (_ & Hb & _). fold st in Hb.
  simpl. rewrite (deliver_close_unfold ws w 1006 st Hs Hc). simpl.
  set (t := {| timer_id := timer_seq st; delay := 1000;
               action := Reconnect ws (ws_conn w) (ws_path w) (ws_url w) |}).
  destruct (find_fresh (timer_seq st) t (timers st) Hb eq_refl) as [Hf Hfl].
  unfold timer_fires. simpl. rewrite Hf. simpl.
  unfold reconnect_callback. simpl. rewrite list_lookup_alter_eq, Hs. simpl.
  now rewrite Hfl.
Qed.

(** *** Subscribing and unsubscribing *)



(** *** Teardown, from the last unsubscribe to the next read *)

Lemma timer_fires_cleanup id t conn c st :
  List.find (has_id id) (timers st) = Some t ->
  action t = Cleanup conn ->
  conns st !! conn = Some c ->
  subscriptions c = [] ->
  timer_fires id st =
  set_sockets (alter WebSocket_close (conn_ws c))
    (set_timers (List.filter (fun t' => negb (has_id id t'))) st).
Proof.
  intros Hf Ha Hc Hs. unfold timer_fires. rewrite Hf, Ha. simpl.
  unfold cleanup_callback. simpl. now rewrite Hc, Hs.
Qed.

(** In every state the program reaches: when the only listener of a load
    cycle unsubscribes, the teardown timer fires, and the socket, which was
    open, closes with a code other than 1006, then the value of the path is
    gone and its entry is stale; the next [read] suspends on the handle of
    that entry and opens a new socket for the path. *)
Theorem teardown_then_read_reloads (trace : list Event) path query c (listener : nat)
    w (code : Z) :
  let st := run trace init in
  queryCache st !! path = Some query ->
  conns st !! q_subscribe query = Some c ->
  subscriptions c = [listener] ->
  sockets st !! conn_ws c = Some w ->
  readyState w = OPEN ->
  ws_path w = path ->
  code <> 1006%Z ->
  let st' := run [EvTimeout (timer_seq st); EvClose (conn_ws c) code]
               (unsubscribe (q_subscribe query) listener st) in
  valueCache st' !! path = None /\
  queryCache st' !! path = Some (spread_lazilyRefetch query true) /\
  (readyState <$> sockets st' !! conn_ws c) = Some CLOSED /\
  (read path true st').1 = Throw (ThrownPromise (deferred query)) /\
  exists url,
    sockets (read path true st').2 =
      sockets st' ++ [{| ws_url := url; ws_path := path; ws_conn := length (conns st);
                         readyState := CONNECTING; sent := [] |}].
Proof.
  intros st Hq Hc Hsubs Hw Hr Hp Hcode st'.
  destruct (run_timer_ids_fresh trace) as (_ & Hb & _). fold st in Hb.
  set (conn := q_subscribe query) in *.
  set (st1 := unsubscribe conn listener st).
  destruct (unsubscribe_unfold conn listener c st Hc)
    as (Hconns1 & Htimers1 & Hsockets1 & Hq1 & Hv1 & _).
  fold st1 in Hconns1, Htimers1, Hsockets1, Hq1, Hv1.
  set (tm := {| timer_id := timer_seq st; delay := 9999; action := Cleanup conn |}) in *.
  (* the timer the closure set is the one that fires *)
  assert (Hbound : forall t, In t (timers (clearTimeout (cleanupTimeoutId c) st)) ->
                             timer_id t < timer_seq st).
  { intros t Hin. apply Hb. destruct (cleanupTimeoutId c); simpl in Hin; [|exact Hin].
    now apply List.filter_In in Hin as [Hin _]. }
  destruct (find_fresh (timer_seq st) tm _ Hbound eq_refl) as [Hfind Hfilter].
  rewrite <- Htimers1 in Hfind, Hfilter.
  assert (Hc1 : conns st1 !! conn =
                Some (set_cleanupTimeoutId (Some (timer_seq st))
                        (set_subscriptions (splice1 (indexOf listener [listener])) c))).
  { rewrite Hconns1, !list_lookup_alter_eq, Hc. simpl. now rewrite Hsubs. }
  assert (Hst2 : timer_fires (timer_seq st) st1 =
                 set_sockets (alter WebSocket_close (conn_ws c))
                   (set_timers (List.filter
                                  (fun t' => negb (has_id (timer_seq st) t'))) st1)).
  { refine (timer_fires_cleanup (timer_seq st) tm conn _ st1 Hfind eq_refl Hc1 _).
    simpl. rewrite Hsubs. simpl. now rewrite Nat.eqb_refl. }
  set (st2 := timer_fires (timer_seq st) st1) in *.
  assert (Hw2 : sockets st2 !! conn_ws c = Some (set_readyState CLOSING w)).
  { rewrite Hst2. simpl. rewrite Hsockets1, list_lookup_alter_eq, Hw. simpl.
    unfold WebSocket_close. now rewrite Hr. }
  assert (Hq2 : queryCache st2 = queryCache st) by (rewrite Hst2; exact Hq1).
  assert (Hv2 : valueCache st2 = valueCache st) by (rewrite Hst2; exact Hv1).
  assert (Hc2 : conns st2 = conns st1) by (now rewrite Hst2).
  assert (Hst' : st' = deliver_close (conn_ws c) code st2) by reflexivity.
  rewrite (deliver_close_unfold (conn_ws c) _ code st2 Hw2 eq_refl) in Hst'.
  simpl in Hst'. apply Z.eqb_neq in Hcode. rewrite Hcode, Hp in Hst'.
  unfold onClose in Hst'. simpl in Hst'. rewrite Hq2, Hq in Hst'.
  assert (Hq' : queryCache st' !! path = Some (spread_lazilyRefetch query true)).
  { rewrite Hst'. simpl. apply lookup_insert_eq. }
  assert (Hv' : valueCache st' !! path = None).
  { rewrite Hst'. simpl. apply lookup_delete_eq. }
  assert (Hs' : sockets st' = alter (set_readyState CLOSED) (conn_ws c) (sockets st2)).
  { rewrite Hst'. reflexivity. }
  assert (Hconns' : length (conns st') = length (conns st)).
  { rewrite Hst'. simpl. rewrite Hc2, Hconns1. now rewrite !length_alter. }
  split; [exact Hv'|]. split; [exact Hq'|]. split.
  { rewrite Hs', list_lookup_alter_eq, Hw2. reflexivity. }
  rewrite (read_without_value path true st' _ Hq') by (intros v Hv; congruence).
  simpl. split; [reflexivity|].
  destruct (load_starts_cycle path st') as (_ & _ & Hsock).
  { intros q0 Hq0. rewrite Hq' in Hq0. now injection Hq0 as <-. }
  rewrite Hsock, Hconns'. eauto.
Qed.

(** *** A reload starts without subscribers *)

Lemma load_starts_cycle_conns path st :
  (forall query, queryCache st !! path = Some query -> lazilyRefetch query = true) ->
  conns (load path st) =
    conns st ++ [{| conn_path := path; conn_deferred := length (promises st);
                    subscriptions := []; cleanupTimeoutId := None;
                    conn_ws := length (sockets st) |}] /\
  notified (load path st) = notified st.
Proof.
  intros Hstale. unfold load. destruct (queryCache st !! path) as [query|] eqn:E.
  - rewrite (Hstale query eq_refl). simpl. rewrite load_fresh_conns. simpl.
    split; [reflexivity|]. unfold load_fresh, resolvedOpts. now destruct opts.
  - rewrite load_fresh_conns. split; [reflexivity|].
    unfold load_fresh, resolvedOpts. now destruct opts.
Qed.

(** When [load] starts a load cycle (the entry is missing or stale), the
    first frame of the new socket is cached and calls no listener: the new
    cycle has its own, empty subscriber list, whoever subscribed to an
    earlier cycle of the path. *)
Theorem reload_starts_without_subscribers path parsed st :
  (forall query, queryCache st !! path = Some query -> lazilyRefetch query = true) ->
  let ws := length (sockets st) in
  let st' := run [EvLoad path; EvOpen ws; EvMessage ws parsed] st in
  valueCache st' !! path = Some parsed /\
  notified st' = notified st /\
  (subscriptions <$> conns st' !! length (conns st)) = Some [].
Proof.
  intros Hstale ws st'. subst st'. simpl.
  destruct (load_starts_cycle path st Hstale) as (_ & _ & Hs).
  destruct (load_starts_cycle_conns path st Hstale) as (Hc & Hn).
  set (st1 := load path st) in *.
  set (w := {| ws_url := (resolvedOpts st).1; ws_path := path;
               ws_conn := length (conns st); readyState := CONNECTING;
               sent := [] |}) in *.
  assert (Hw : sockets st1 !! ws = Some w).
  { rewrite Hs. subst ws. now rewrite lookup_app_r, Nat.sub_diag by lia. }
  assert (Hopen : deliver_open ws st1 =
                  set_sockets (alter (push_sent path) ws)
                    (set_sockets (alter (set_readyState OPEN) ws) st1)).
  { unfold deliver_open. rewrite Hw. simpl. unfold on_open. simpl.
    now rewrite list_lookup_alter_eq, Hw. }
  set (st2 := deliver_open ws st1) in *.
  assert (Hw2 : sockets st2 !! ws = Some (push_sent path (set_readyState OPEN w))).
  { rewrite Hopen. simpl. now rewrite !list_lookup_alter_eq, Hw. }
  destruct (deliver_message_unfold ws _ parsed st2 Hw2 eq_refl)
    as (Hv3 & _ & _ & Hc3 & _ & Hn3).
  assert (Hc2 : conns st2 = conns st1) by (now rewrite Hopen).
  assert (Hn2 : notified st2 = notified st1) by (now rewrite Hopen).
  assert (Hnew : conns st1 !! length (conns st) =
                 Some {| conn_path := path; conn_deferred := length (promises st);
                         subscriptions := []; cleanupTimeoutId := None;
                         conn_ws := length (sockets st) |}).
  { rewrite Hc. now rewrite lookup_app_r, Nat.sub_diag by lia. }
  rewrite Hv3, Hn3, Hc3, Hc2, Hn2, Hn. simpl. rewrite Hnew. simpl.
  rewrite lookup_insert_eq, app_nil_r. auto.
Qed.

(** *** One reconnection for one closure *)

Lemma count_if_In {A} (f : A -> bool) (l : list A) x :
  In x l -> f x = true -> 1 <= count_if f l.
Proof.
  induction l as [|y l IH]; simpl; [tauto|].
  intros [->|Hin] Hf; [rewrite Hf; lia|]. specialize (IH Hin Hf). lia.
Qed.

(** A pending timer keeps its id, and no later timer gets that id. *)
Lemma step_timer_identity (e : Event) st i t0 :
  i < timer_seq st ->
  (forall t, In t (timers st) -> timer_id t = i -> t = t0) ->
  i < timer_seq (step e st) /\
  (forall t, In t (timers (step e st)) -> timer_id t = i -> t = t0).
Proof.
  intros Hi H. pose proof (timer_seq_mono e st) as Hmono. split; [lia|].
  intros t Hin Hid.
  destruct (step_timers_shape e st) as (keep & [[Ht _]|(a & d & Ht & _ & _)]);
    rewrite Ht in Hin.
  - apply List.filter_In in Hin as [Hin _]. auto.
  - apply in_app_or in Hin as [Hin|[<-|[]]].
    + apply List.filter_In in Hin as [Hin _]. auto.
    + simpl in Hid. lia.
Qed.

Lemma run_timer_identity (trace : list Event) st i t0 :
  i < timer_seq st ->
  (forall t, In t (timers st) -> timer_id t = i -> t = t0) ->
  forall t, In t (timers (run trace st)) -> timer_id t = i -> t = t0.
Proof.
  revert st. induction trace as [|e trace IH]; intros st Hi H; [exact H|].
  simpl. destruct (step_timer_identity e st i t0 Hi H) as [Hi' H']. now apply IH.
Qed.

(** C4, as the code has it: the closure of a socket with code 1006 sets one
    timer of 1000 ms and opens nothing. Whatever happens before that timer
    fires, it is still the timer of that closure, the socket that closed is
    in state [CLOSED] (what the guard reads), and firing creates one socket
    for the same path, URL and load cycle; the timer fires once. When the
    state was reached without [clearQuery], no socket of the path is live
    when the timer fires, and exactly one is afterwards. *)
Theorem reconnect_once_per_closure (trace trace2 : list Event) ws w t :
  let st := run trace init in
  sockets st !! ws = Some w ->
  is_CLOSED (readyState w) = false ->
  let scheduled := {| timer_id := timer_seq st; delay := 1000;
                      action := Reconnect ws (ws_conn w) (ws_path w) (ws_url w) |} in
  let st1 := step (EvClose ws 1006) st in
  let st2 := run trace2 st1 in
  List.find (has_id (timer_seq st)) (timers st2) = Some t ->
  let st3 := timer_fires (timer_seq st) st2 in
  timers st1 = timers st ++ [scheduled] /\
  sockets st1 = alter (set_readyState CLOSED) ws (sockets st) /\
  t = scheduled /\
  (readyState <$> sockets st2 !! ws) = Some CLOSED /\
  sockets st3 =
    sockets st2 ++ [{| ws_url := ws_url w; ws_path := ws_path w; ws_conn := ws_conn w;
                       readyState := CONNECTING; sent := [] |}] /\
  timer_fires (timer_seq st) st3 = st3 /\
  (forallb (fun e => negb (is_clearQuery e)) (trace ++ EvClose ws 1006 :: trace2) = true ->
   live_connections st2 (ws_path w) = 0 /\ live_connections st3 (ws_path w) = 1).
Proof.
  intros st Hs Hc scheduled st1 st2 Hf st3.
  assert (Hst1 : st1 = (setTimeout (Reconnect ws (ws_conn w) (ws_path w) (ws_url w)) 1000
                          (set_sockets (alter (set_readyState CLOSED) ws) st)).2).
  { unfold st1. simpl. now rewrite (deliver_close_unfold ws w 1006 st Hs Hc). }
  assert (Ht1 : timers st1 = timers st ++ [scheduled]) by (now rewrite Hst1).
  assert (Hfull : st2 = run (trace ++ EvClose ws 1006 :: trace2) init).
  { unfold st2, st1, st. now rewrite run_app. }
  pose proof Hf as Hin. apply List.find_some in Hin as [Hin Hid].
  apply Nat.eqb_eq in Hid.
  assert (Ht : t = scheduled).
  { apply (run_timer_identity trace2 st1 (timer_seq st) scheduled); [| |exact Hin|exact Hid].
    - rewrite Hst1. simpl. lia.
    - intros t' Hin' Hid'. rewrite Ht1 in Hin'.
      apply in_app_or in Hin' as [Hold|[<-|[]]]; [|reflexivity].
      destruct (run_timer_ids_fresh trace) as (_ & Hb & _).
      specialize (Hb t' Hold). fold st in Hb. lia. }
  assert (Hclosed : exists w', sockets st2 !! ws = Some w' /\ readyState w' = CLOSED).
  { rewrite Hfull in Hin |- *.
    destruct (run_reconnects_await_closed _ t ws (ws_conn w) (ws_path w) (ws_url w) Hin)
      as (w' & Hw' & Hc' & _); [now rewrite Ht | eauto]. }
  destruct Hclosed as (w' & Hw' & Hc').
  assert (Hs3 : sockets st3 =
                sockets st2 ++ [{| ws_url := ws_url w; ws_path := ws_path w;
                                   ws_conn := ws_conn w; readyState := CONNECTING;
                                   sent := [] |}]).
  { unfold st3, timer_fires. rewrite Hf, Ht. simpl. unfold reconnect_callback. simpl.
    now rewrite Hw', Hc'. }
  split; [exact Ht1|]. split; [now rewrite Hst1|]. split; [exact Ht|].
  split; [rewrite Hw'; simpl; now rewrite Hc'|]. split; [exact Hs3|].
  split; [apply timer_fires_once|].
  intros Hno.
  destruct (run_single_connection _ init Hno init_single_connection (ws_path w)) as [H1 _].
  rewrite <- Hfull in H1.
  assert (Hp : 1 <= pending_reconnects st2 (ws_path w)).
  { apply (count_if_In _ _ t Hin). rewrite Ht. unfold reconnect_for. simpl.
    apply String.eqb_refl. }
  assert (Hl : live_connections st2 (ws_path w) = 0) by lia.
  split; [exact Hl|].
  unfold live_connections in *. rewrite Hs3, count_if_app, Hl. simpl.
  unfold socket_live. simpl. now rewrite String.eqb_refl.
Qed.

End createWSHooks.

(** ** Examples on a concrete instance *)

Local Notation sample_run :=
  (run sample_opts sample_NumberToString sample_decodeURIComponent).
Local Notation sample_step :=
  (step sample_opts sample_NumberToString sample_decodeURIComponent).
Local Notation sample_read :=
  (read sample_opts sample_NumberToString sample_decodeURIComponent).

(** [clearQuery] leaves the socket open, and the [load] after it opens a
    second one for the same path; the first handle is still pending. *)
Lemma clearQuery_then_load_opens_second_connection :
  let st := sample_run
              [EvLoad "/a"; EvOpen 0; EvClearQuery "/a"; EvLoad "/a"; EvOpen 1] init in
  open_connections st "/a" = 2 /\
  pending_handles st "/a" = 2 /\
  ~ (open_connections st "/a" <= 1) /\
  ~ (pending_handles st "/a" <= 1).
Proof. vm_compute. repeat split; lia. Qed.

Lemma one_connection_without_clearQuery_witness :
  let trace := [EvLoad "/a"; EvOpen 0; EvClose 0 1006; EvLoad "/a"; EvTimeout 0;
                EvOpen 1; EvLoad "/a"] in
  forallb (fun e => negb (is_clearQuery e)) trace = true /\
  live_connections (sample_run trace init) "/a" <= 1 /\
  length (sockets (sample_run trace init)) = 2.
Proof.
  intros trace.
  assert (Ht : forallb (fun e => negb (is_clearQuery e)) trace = true) by reflexivity.
  split; [exact Ht|]. split; [|reflexivity].
  exact (proj1 (one_connection_without_clearQuery sample_opts sample_NumberToString
                  sample_decodeURIComponent trace "/a" 0 init Ht)).
Defined.

(** A frame that arrives on the socket [clearQuery] left open stores a value
    under an entry that is stale. *)
Lemma message_after_clearQuery_fills_stale_entry :
  let before := sample_run [EvLoad "/a"; EvOpen 0; EvClearQuery "/a"] init in
  let st := sample_step (EvMessage 0 (JStr "x")) before in
  (lazilyRefetch <$> queryCache st !! "/a") = Some true /\
  valueCache st !! "/a" = Some (JStr "x") /\
  ~ stale_implies_cleared st.
Proof.
  intros before st.
  assert (Hq : queryCache st !! "/a" =
               Some {| deferred := 0; lazilyRefetch := true; q_subscribe := 0 |})
    by reflexivity.
  assert (Hv : valueCache st !! "/a" = Some (JStr "x")) by reflexivity.
  split; [now rewrite Hq|]. split; [exact Hv|].
  intros H. specialize (H "/a" _ Hq eq_refl). congruence.
Qed.

Lemma stale_implies_cleared_is_kept_witness :
  let trace := [EvLoad "/a"; EvOpen 0; EvClose 0 1000] in
  let st := sample_run trace init in
  stale_implies_cleared st /\
  (lazilyRefetch <$> queryCache st !! "/a") = Some true /\
  stale_implies_cleared (sample_step (EvRead "/a" true) st).
Proof.
  intros trace st.
  assert (Ht : forallb (fun e => negb (is_clearQuery e)) trace = true) by reflexivity.
  assert (H : stale_implies_cleared st).
  { apply (stale_implies_cleared_without_clearQuery sample_opts sample_NumberToString
             sample_decodeURIComponent trace Ht). }
  split; [exact H|]. split; [reflexivity|].
  exact (proj1 (stale_implies_cleared_is_kept sample_opts sample_NumberToString
                  sample_decodeURIComponent trace (EvRead "/a" true) st H eq_refl Ht)).
Defined.

Lemma load_is_noop_while_fresh_witness :
  let st := sample_run [EvLoad "/a"; EvOpen 0] init in
  let query := {| deferred := 0; lazilyRefetch := false; q_subscribe := 0 |} in
  queryCache st !! "/a" = Some query /\
  load sample_opts "/a" st = st /\
  Nat.iter 3 (load sample_opts "/a") st = st.
Proof.
  intros st query.
  assert (Hq : queryCache st !! "/a" = Some query) by reflexivity.
  split; [exact Hq|].
  exact (load_is_noop_while_fresh sample_opts "/a" st query 3 Hq eq_refl).
Defined.

(** After a closure with code 1006 the value is still cached and the entry
    is not flagged. *)
Lemma close_1006_keeps_value_and_entry :
  let st := sample_run [EvLoad "/a"; EvOpen 0; EvMessage 0 (JStr "x")] init in
  let st' := deliver_close 0 1006 st in
  valueCache st' !! "/a" = Some (JStr "x") /\
  (lazilyRefetch <$> queryCache st' !! "/a") = Some false.
Proof. split; reflexivity. Qed.

Lemma close_marks_stale_unless_1006_witness :
  let st := sample_run [EvLoad "/a"; EvOpen 0; EvMessage 0 (JStr "x")] init in
  let st' := deliver_close 0 1000 st in
  valueCache st' !! "/a" = None /\
  queryCache st' !! "/a" =
    Some {| deferred := 0; lazilyRefetch := true; q_subscribe := 0 |}.
Proof.
  intros st st'.
  pose proof (close_marks_stale_unless_1006 0
                {| ws_url := "ws://localhost:3000"; ws_path := "/a"; ws_conn := 0;
                   readyState := OPEN; sent := ["/a"] |}
                1000 {| deferred := 0; lazilyRefetch := false; q_subscribe := 0 |} st
                eq_refl eq_refl eq_refl) as [H _].
  destruct H as (_ & H2 & _ & H4); [discriminate|].
  split; [exact H2 | exact H4].
Defined.

Lemma read_and_subscribe_need_load_witness :
  queryCache init !! "/a" = None /\
  sample_read "/a" true init = (Throw (Error "invariant: call load() first for /a"), init).
Proof.
  split; [reflexivity|].
  exact (proj1 (read_and_subscribe_need_load sample_opts sample_NumberToString
                  sample_decodeURIComponent "/a" init true 0 eq_refl)).
Defined.

Lemma read_surfaces_error_payload_witness :
  let payload := JObj [("error", JStr "boom")] in
  let st := sample_run [EvLoad "/a%20b"; EvOpen 0; EvMessage 0 payload] init in
  valueCache st !! "/a%20b" = Some payload /\
  sample_decodeURIComponent "/a%20b" = Some "/a b" /\
  (sample_read "/a%20b" true st).1 =
    Throw (Error ("Error reading " +:+ dquote +:+ "/a b" +:+ dquote +:+ " - [boom]")).
Proof.
  intros payload st.
  destruct (read_surfaces_error_payload sample_opts sample_NumberToString
              sample_decodeURIComponent
              [EvLoad "/a%20b"; EvOpen 0; EvMessage 0 payload] "/a%20b"
              payload true eq_refl eq_refl) as [H _].
  destruct (H (JStr "boom") eq_refl) as (_ & Hs & _).
  split; [reflexivity|]. split; [reflexivity|].
  exact (Hs "/a b" "boom" eq_refl eq_refl).
Defined.

(** A path with a malformed escape makes [read] throw the [URIError] of
    [decodeURIComponent], and a detail with an own [toString] property the
    [TypeError] of the template literal: neither message names the path or
    the detail. *)
Lemma read_error_payload_other_errors :
  let malformed :=
    sample_run [EvLoad "/a%zz"; EvOpen 0; EvMessage 0 (JObj [("error", JStr "boom")])]
      init in
  let unprintable :=
    sample_run [EvLoad "/a"; EvOpen 0;
                EvMessage 0 (JObj [("error", JObj [("toString", JNum 1%float)])])]
      init in
  (sample_read "/a%zz" true malformed).1 = Throw URIError /\
  (sample_read "/a" true unprintable).1 = Throw TypeError.
Proof. split; reflexivity. Qed.



Lemma read_treats_falsy_as_missing_witness :
  let st := sample_run [EvLoad "/a"; EvOpen 0; EvMessage 0 (JNum 0%float)] init in
  valueCache st !! "/a" = Some (JNum 0%float) /\
  truthy (JNum 0%float) = false /\
  (sample_read "/a" true st).1 = Throw (ThrownPromise 0) /\
  (sample_read "/a" false st).1 = Return JNull.
Proof.
  intros st.
  destruct (read_treats_falsy_as_missing sample_opts sample_NumberToString
              sample_decodeURIComponent "/a" st
              {| deferred := 0; lazilyRefetch := false; q_subscribe := 0 |}
              (JNum 0%float) true eq_refl eq_refl eq_refl) as (H1 & H2 & _).
  split; [reflexivity|]. split; [reflexivity|]. split; [exact H1 | exact H2].
Defined.

Lemma read_stale_throws_old_promise_witness :
  let trace := [EvLoad "/a"; EvOpen 0; EvClose 0 1000] in
  let st := sample_run trace init in
  queryCache st !! "/a" =
    Some {| deferred := 0; lazilyRefetch := true; q_subscribe := 0 |} /\
  (sample_read "/a" true st).1 = Throw (ThrownPromise 0) /\
  (deferred <$> queryCache (sample_read "/a" true st).2 !! "/a") = Some 1.
Proof.
  intros trace st.
  destruct (read_stale_throws_old_promise sample_opts sample_NumberToString
              sample_decodeURIComponent trace "/a"
              {| deferred := 0; lazilyRefetch := true; q_subscribe := 0 |}
              eq_refl eq_refl) as (q' & H1 & H2 & _ & H4 & _).
  { intros value Hv. discriminate Hv. }
  fold st in H1, H2, H4. split; [reflexivity|]. rewrite H1. simpl.
  split; [reflexivity|]. rewrite H2. simpl. now rewrite H4.
Defined.

(** Two behaviours of the teardown path that the statements above leave
    aside. Calling an unsubscribe closure a second time finds no index
    ([indexOf] gives -1) and [splice(-1, 1)] removes the last listener, which
    is another subscriber's. *)
Lemma second_unsubscribe_removes_another_listener :
  let st := sample_run [EvLoad "/a"; EvSubscribe "/a" 7; EvSubscribe "/a" 8;
                        EvUnsubscribe 0 7] init in
  (subscriptions <$> conns st !! 0) = Some [8] /\
  (subscriptions <$> conns (sample_step (EvUnsubscribe 0 7) st) !! 0) = Some [].
Proof. split; reflexivity. Qed.

(** After a reconnection the handle still closes the socket it was created
    with: [recreate()] in the timer does not assign [ws], so the teardown
    leaves the new socket open. *)
Lemma teardown_after_reconnect_leaves_new_socket_open :
  let st := sample_run [EvLoad "/a"; EvOpen 0; EvClose 0 1006; EvTimeout 0; EvOpen 1;
                        EvSubscribe "/a" 7; EvUnsubscribe 0 7] init in
  (subscriptions <$> conns st !! 0) = Some [] /\
  (action <$> timers st) = [Cleanup 0] /\
  (readyState <$> sockets (sample_step (EvTimeout 1) st)) = [CLOSED; OPEN].
Proof. repeat split; reflexivity. Qed.

(** The reconnection of a connection that [clearQuery] orphaned fires while
    the socket the later [load] opened is open, and adds a socket next to
    it. *)
Lemma reconnect_after_clearQuery_adds_socket :
  let before := sample_run [EvLoad "/a"; EvOpen 0; EvClose 0 1006; EvClearQuery "/a";
                            EvLoad "/a"; EvOpen 1] init in
  let st := sample_step (EvTimeout 0) before in
  (readyState <$> sockets before) = [CLOSED; OPEN] /\
  open_connections before "/a" = 1 /\
  (action <$> timers before) = [Reconnect 0 0 "/a" "ws://localhost:3000"] /\
  (readyState <$> sockets st) = [CLOSED; OPEN; CONNECTING] /\
  live_connections st "/a" = 2.
Proof. repeat split; reflexivity. Qed.

Lemma reconnect_once_per_closure_witness :
  let st := sample_run [EvLoad "/a"; EvOpen 0] init in
  let st2 := sample_run [EvClose 0 1006; EvLoad "/a"; EvRead "/a" true] st in
  let st3 := timer_fires (timer_seq st) st2 in
  (readyState <$> sockets st !! 0) = Some OPEN /\
  timers st2 = [{| timer_id := 0; delay := 1000;
                   action := Reconnect 0 0 "/a" "ws://localhost:3000" |}] /\
  (readyState <$> sockets st2) = [CLOSED] /\
  (readyState <$> sockets st3) = [CLOSED; CONNECTING] /\
  live_connections st2 "/a" = 0 /\
  live_connections st3 "/a" = 1.
Proof.
  intros st st2 st3.
  destruct (reconnect_once_per_closure sample_opts sample_NumberToString
              sample_decodeURIComponent [EvLoad "/a"; EvOpen 0]
              [EvLoad "/a"; EvRead "/a" true] 0
              {| ws_url := "ws://localhost:3000"; ws_path := "/a"; ws_conn := 0;
                 readyState := OPEN; sent := ["/a"] |}
              {| timer_id := 0; delay := 1000;
                 action := Reconnect 0 0 "/a" "ws://localhost:3000" |}
              eq_refl eq_refl eq_refl)
    as (_ & _ & _ & _ & _ & _ & Hlive).
  destruct (Hlive eq_refl) as [H0 H1].
  split; [reflexivity|]. split; [reflexivity|]. split; [reflexivity|].
  split; [reflexivity|]. split; [exact H0 | exact H1].
Defined.

(** ** Examples for the further properties *)

Lemma unsubscribe_removes_one_listener_witness :
  let st := sample_run [EvLoad "/a"; EvSubscribe "/a" 7; EvSubscribe "/a" 8] init in
  (subscriptions <$> conns st !! 0) = Some [7; 8] /\
  (subscriptions <$> conns (unsubscribe 0 7 st) !! 0) = Some [8].
Proof.
  intros st. split; [reflexivity|].
  destruct (unsubscribe_removes_one_listener 0 7
              {| conn_path := "/a"; conn_deferred := 0; subscriptions := [7; 8];
                 cleanupTimeoutId := None; conn_ws := 0 |} st eq_refl)
    as (c' & H1 & _ & Hin & _).
  destruct (Hin (or_introl eq_refl)) as [Heq _].
  rewrite H1. simpl. now rewrite Heq.
Defined.

Lemma step_keeps_other_paths_witness :
  let st := sample_run [EvLoad "/a"; EvLoad "/b"; EvOpen 1; EvMessage 1 (JStr "x")] init in
  event_path st (EvClearQuery "/a") <> Some "/b" /\
  valueCache (sample_step (EvClearQuery "/a") st) !! "/b" = Some (JStr "x").
Proof.
  intros st.
  assert (H : event_path st (EvClearQuery "/a") <> Some "/b") by discriminate.
  split; [exact H|].
  now rewrite (proj1 (step_keeps_other_paths sample_opts sample_NumberToString
                        sample_decodeURIComponent (EvClearQuery "/a") st "/b" H)).
Defined.

Lemma read_is_unaffected_witness :
  let st := sample_run [EvLoad "/a"; EvOpen 0; EvMessage 0 (JStr "x")] init in
  cache_neutral (EvClose 0 1006) = true /\
  (sample_read "/a" true (sample_step (EvClose 0 1006) st)).1 = Return (JStr "x").
Proof.
  intros st. split; [reflexivity|].
  now rewrite (read_is_unaffected sample_opts sample_NumberToString
                 sample_decodeURIComponent (EvClose 0 1006) "/a" true st
                 (or_introl eq_refl)).
Defined.

Lemma read_after_message_witness :
  let st := sample_run [EvLoad "/a"; EvOpen 0] init in
  (readyState <$> sockets st !! 0) = Some OPEN /\
  (sample_read "/a" false
     (deliver_message 0 (JStr "x") st)).1 = Return (JStr "x").
Proof.
  intros st. split; [reflexivity|].
  exact (read_after_message sample_opts sample_NumberToString sample_decodeURIComponent
           [EvLoad "/a"; EvOpen 0] 0
           {| ws_url := "ws://localhost:3000"; ws_path := "/a"; ws_conn := 0;
              readyState := OPEN; sent := ["/a"] |}
           (JStr "x") false eq_refl eq_refl eq_refl eq_refl).
Defined.

Lemma last_frame_is_cached_witness :
  let st := sample_run [EvLoad "/a"; EvOpen 0; EvSubscribe "/a" 7] init in
  let st' := sample_run (EvMessage 0 <$> [JStr "1"; JStr "2"; JStr "3"]) st in
  (readyState <$> sockets st !! 0) = Some OPEN /\
  valueCache st' !! "/a" = Some (JStr "3") /\
  notified st' = [7; 7; 7].
Proof.
  intros st st'. split; [reflexivity|].
  destruct (last_frame_is_cached sample_opts sample_NumberToString
              sample_decodeURIComponent 0
              {| ws_url := "ws://localhost:3000"; ws_path := "/a"; ws_conn := 0;
                 readyState := OPEN; sent := ["/a"] |}
              [JStr "1"; JStr "2"] (JStr "3") st eq_refl eq_refl) as [H1 H2].
  split; [exact H1 | exact H2].
Defined.

Lemma useSubscription_after_preload_suspends_witness :
  queryCache init !! "/a" = None /\
  (useSubscription sample_opts sample_NumberToString sample_decodeURIComponent "/a"
     (preloadSubscription sample_opts "/a" init)).1 = Throw (ThrownPromise 0).
Proof.
  split; [reflexivity|].
  destruct (useSubscription_after_preload_suspends sample_opts sample_NumberToString
              sample_decodeURIComponent [] "/a" eq_refl) as [H _].
  simpl in H. now rewrite H.
Defined.

Lemma only_the_path_is_sent_witness :
  let st := sample_run [EvLoad "/a"; EvOpen 0] init in
  let w := {| ws_url := "ws://localhost:3000"; ws_path := "/a"; ws_conn := 0;
              readyState := OPEN; sent := ["/a"] |} in
  sockets st !! 0 = Some w /\ sent_is_path w.
Proof.
  intros st w. split; [reflexivity|].
  exact (only_the_path_is_sent sample_opts sample_NumberToString
           sample_decodeURIComponent [EvLoad "/a"; EvOpen 0] 0 w eq_refl).
Defined.

Lemma scheduled_reconnection_is_performed_witness :
  let st := sample_run [EvLoad "/a"; EvOpen 0; EvClose 0 1006] init in
  let t := {| timer_id := 0; delay := 1000;
              action := Reconnect 0 0 "/a" "ws://localhost:3000" |} in
  timers st = [t] /\
  length (sockets (timer_fires 0 st)) = 2.
Proof.
  intros st t. split; [reflexivity|].
  destruct (scheduled_reconnection_is_performed sample_opts sample_NumberToString
              sample_decodeURIComponent [EvLoad "/a"; EvOpen 0; EvClose 0 1006]
              t 0 0 "/a" "ws://localhost:3000" eq_refl eq_refl) as [_ H].
  change (timer_id t) with 0 in H. unfold st. now rewrite H.
Defined.

Lemma opts_is_resolved_once_per_load_cycle_witness :
  let st := run sample_opts_callback sample_NumberToString sample_decodeURIComponent
              [EvLoad "/a"; EvOpen 0; EvClose 0 1000; EvLoad "/a"; EvClose 1 1006;
               EvTimeout 0] init in
  let w := {| ws_url := "ws://localhost:3000/?token=b"; ws_path := "/a"; ws_conn := 1;
              readyState := CONNECTING; sent := [] |} in
  sockets st !! 2 = Some w /\
  opts_calls st = 2 /\
  ws_url w = url_of_cycle sample_opts_callback 1.
Proof.
  intros st w.
  assert (Hw : sockets st !! 2 = Some w) by reflexivity.
  split; [exact Hw|].
  destruct (opts_is_resolved_once_per_load_cycle sample_opts_callback
              sample_NumberToString sample_decodeURIComponent
              [EvLoad "/a"; EvOpen 0; EvClose 0 1000; EvLoad "/a"; EvClose 1 1006;
               EvTimeout 0] 2 w Hw) as [H1 H2].
  split; [exact H1 | exact H2].
Defined.

Lemma timer_fires_alone_witness :
  let st := sample_run [EvLoad "/a"; EvOpen 0; EvSubscribe "/a" 7; EvUnsubscribe 0 7;
                        EvClose 0 1006] init in
  let t' := {| timer_id := 0; delay := 9999; action := Cleanup 0 |} in
  let t := {| timer_id := 1; delay := 1000;
              action := Reconnect 0 0 "/a" "ws://localhost:3000" |} in
  timers st = [t'; t] /\
  In t' (timers (timer_fires 1 st)).
Proof.
  intros st t' t.
  assert (Ht : timers st = [t'; t]) by (vm_compute; reflexivity).
  split; [exact Ht|].
  assert (Hf : List.find (has_id (timer_id t)) (timers st) = Some t)
    by (rewrite Ht; reflexivity).
  assert (Hin : In t' (timers st)) by (rewrite Ht; now left).
  apply (timer_fires_alone sample_opts sample_NumberToString sample_decodeURIComponent
           [EvLoad "/a"; EvOpen 0; EvSubscribe "/a" 7; EvUnsubscribe 0 7; EvClose 0 1006]
           t t' Hf Hin).
  discriminate.
Defined.

Lemma no_connection_under_stale_entry_witness :
  let trace := [EvLoad "/a"; EvOpen 0; EvClose 0 1000] in
  let st := sample_run trace init in
  forallb (fun e => negb (is_clearQuery e)) trace = true /\
  (lazilyRefetch <$> queryCache st !! "/a") = Some true /\
  live_connections st "/a" = 0 /\ pending_reconnects st "/a" = 0.
Proof.
  intros trace st.
  assert (Ht : forallb (fun e => negb (is_clearQuery e)) trace = true) by reflexivity.
  split; [exact Ht|]. split; [reflexivity|].
  apply (no_connection_under_stale_entry sample_opts sample_NumberToString
           sample_decodeURIComponent trace "/a" Ht).
  intros query Hq. change (queryCache (sample_run trace init) !! "/a")
    with (Some {| deferred := 0; lazilyRefetch := true; q_subscribe := 0 |}) in Hq.
  now injection Hq as <-.
Defined.

Lemma abnormal_closure_reconnects_witness :
  let st := sample_run [EvLoad "/a"; EvOpen 0] init in
  let st' := sample_run [EvClose 0 1006; EvTimeout (timer_seq st)] st in
  (readyState <$> sockets st !! 0) = Some OPEN /\
  (readyState <$> sockets st') = [CLOSED; CONNECTING] /\
  timers st' = [].
Proof.
  intros st st'. split; [reflexivity|].
  destruct (abnormal_closure_reconnects sample_opts sample_NumberToString
              sample_decodeURIComponent [EvLoad "/a"; EvOpen 0] 0
              {| ws_url := "ws://localhost:3000"; ws_path := "/a"; ws_conn := 0;
                 readyState := OPEN; sent := ["/a"] |} eq_refl eq_refl)
    as (H1 & H2 & _).
  split; [|exact H2].
  unfold st', st. now rewrite H1.
Defined.


Lemma teardown_then_read_reloads_witness :
  let st := sample_run [EvLoad "/a"; EvOpen 0; EvSubscribe "/a" 7] init in
  let st' := sample_run [EvTimeout (timer_seq st); EvClose 0 1000]
               (unsubscribe 0 7 st) in
  (subscriptions <$> conns st !! 0) = Some [7] /\
  valueCache st' !! "/a" = None /\
  (lazilyRefetch <$> queryCache st' !! "/a") = Some true /\
  (sample_read "/a" true st').1 = Throw (ThrownPromise 0).
Proof.
  intros st st'. split; [reflexivity|].
  destruct (teardown_then_read_reloads sample_opts sample_NumberToString
              sample_decodeURIComponent [EvLoad "/a"; EvOpen 0; EvSubscribe "/a" 7]
              "/a" {| deferred := 0; lazilyRefetch := false; q_subscribe := 0 |}
              {| conn_path := "/a"; conn_deferred := 0; subscriptions := [7];
                 cleanupTimeoutId := None; conn_ws := 0 |}
              7
              {| ws_url := "ws://localhost:3000"; ws_path := "/a"; ws_conn := 0;
                 readyState := OPEN; sent := ["/a"] |}
              1000 eq_refl eq_refl eq_refl eq_refl eq_refl eq_refl)
    as (H1 & H2 & _ & H4 & _); [discriminate|].
  split; [exact H1|]. split; [|exact H4].
  unfold st', st. cbn [conn_ws q_subscribe] in H2. now rewrite H2.
Defined.

Lemma reload_starts_without_subscribers_witness :
  let st' := sample_run [EvLoad "/a"; EvOpen 0; EvMessage 0 (JStr "x")] init in
  queryCache init !! "/a" = None /\
  valueCache st' !! "/a" = Some (JStr "x") /\
  notified st' = [].
Proof.
  intros st'. split; [reflexivity|].
  destruct (reload_starts_without_subscribers sample_opts sample_NumberToString
              sample_decodeURIComponent "/a" (JStr "x") init) as (H1 & H2 & _).
  { intros query Hq. discriminate Hq. }
  split; [exact H1 | exact H2].
Defined.
